(** * SenseAI: audio decoding, playback control and the generation pipeline

    A shallow embedding of the client logic of the SenseAI front-end:

    - [components/AudioPlayer.tsx]: [decodeAudio] (base64 PCM to a float
      buffer) and the [play] / [pause] / [stop] controller;
    - [services/geminiService.ts]: [generateExplanation],
      [generateDiagram], [generateSpeech];
    - [App.tsx]: [handleProcess] and the asynchronous result updaters.

    ECMAScript built-ins ([atob], typed arrays, [String.prototype.slice],
    property access, truthiness) follow their standard semantics.  Objects of
    the Web platform and of the remote service (the audio context, the
    network replies, the delivery of callbacks) are the environment: their
    answers are inputs of the model. *)

From Stdlib Require Import ZArith QArith String Ascii List Bool Lia.
From stdpp Require Import base list option strings gmap.

Close Scope Q_scope.
Open Scope Z_scope.

(** ** JavaScript completions *)

Inductive JSError :=
| InvalidCharacterError
| RangeError
| TypeError
| SyntaxError
| NotSupportedError
| InvalidStateError
| RequestFailed
| Error (message : string).

(** The outcome of evaluating a block: a value, or a thrown exception. *)
Inductive completion (A : Type) :=
| Normal (a : A)
| Throw (e : JSError).
Arguments Normal {A} a.
Arguments Throw {A} e.

(** A [console.error] call: a message with the error object, or the error
    object alone. *)
Inductive ConsoleLine :=
| ConsoleError (message : string) (err : JSError)
| ConsoleErrorObject (err : JSError).

#[global] Instance completion_ret : MRet completion := fun _ a => Normal a.
#[global] Instance completion_bind : MBind completion := fun _ _ k c =>
  match c with
  | Normal a => k a
  | Throw e => Throw e
  end.

(** ** The PCM decoder and the playback controller (AudioPlayer.tsx) *)

Module AudioPlayer.

(** *** [atob]: forgiving base64 decoding

    The binary string returned by [atob] is a [string] whose characters have
    codes 0..255. *)

Definition is_ascii_whitespace (c : ascii) : bool :=
  let n := nat_of_ascii c in
  ((n =? 9) || (n =? 10) || (n =? 12) || (n =? 13) || (n =? 32))%nat.

Definition base64_index (c : ascii) : option Z :=
  let n := Z.of_nat (nat_of_ascii c) in
  if (65 <=? n) && (n <=? 90) then Some (n - 65)
  else if (97 <=? n) && (n <=? 122) then Some (n - 71)
  else if (48 <=? n) && (n <=? 57) then Some (n + 4)
  else if n =? 43 then Some 62
  else if n =? 47 then Some 63
  else None.

Definition is_equals (c : ascii) : bool := (nat_of_ascii c =? 61)%nat.

(** Remove one or two trailing [=] when the length is a multiple of four. *)
Definition strip_padding (data : list ascii) : list ascii :=
  if (length data mod 4 =? 0)%nat then
    match rev data with
    | c1 :: c2 :: r =>
        if is_equals c1 then
          if is_equals c2 then rev r else rev (c2 :: r)
        else data
    | _ => data
    end
  else data.

Fixpoint sextets (data : list ascii) : option (list Z) :=
  match data with
  | [] => Some []
  | c :: r =>
      match base64_index c, sextets r with
      | Some v, Some vs => Some (v :: vs)
      | _, _ => None
      end
  end.

(** Four sextets give three bytes; a tail of three gives two bytes and a
    tail of two gives one byte, the spare low bits being discarded. *)
Fixpoint decode_sextets (vs : list Z) : list Z :=
  match vs with
  | a :: b :: c :: d :: r =>
      let n := Z.lor (Z.lor (Z.shiftl a 18) (Z.shiftl b 12))
                     (Z.lor (Z.shiftl c 6) d) in
      Z.land (Z.shiftr n 16) 255 :: Z.land (Z.shiftr n 8) 255
        :: Z.land n 255 :: decode_sextets r
  | [a; b; c] =>
      let n := Z.lor (Z.lor (Z.shiftl a 12) (Z.shiftl b 6)) c in
      [Z.land (Z.shiftr n 10) 255; Z.land (Z.shiftr n 2) 255]
  | [a; b] =>
      let n := Z.lor (Z.shiftl a 6) b in
      [Z.land (Z.shiftr n 4) 255]
  | _ => []
  end.

Definition binary_string (codes : list Z) : string :=
  string_of_list_ascii (map (fun b => ascii_of_nat (Z.to_nat b)) codes).

Definition atob (base64 : string) : completion string :=
  let data := strip_padding
                (filter (fun c => is_ascii_whitespace c = false)
                        (list_ascii_of_string base64)) in
  if (length data mod 4 =? 1)%nat then Throw InvalidCharacterError
  else match sextets data with
       | Some vs => Normal (binary_string (decode_sextets vs))
       | None => Throw InvalidCharacterError
       end.

(** *** Typed arrays *)

(** [binaryString.charCodeAt(i)]; out of range it is NaN, which a
    [Uint8Array] stores as 0. *)
Definition charCodeAt (s : string) (i : nat) : Z :=
  match String.get i s with
  | Some c => Z.of_nat (nat_of_ascii c)
  | None => 0
  end.

(** [new Uint8Array(len)] and [bytes[i] = v]: the store wraps modulo 256 and
    is ignored out of range. *)
Definition Uint8Array_new (len : nat) : list Z := replicate len 0.
Definition Uint8Array_set (bytes : list Z) (i : nat) (v : Z) : list Z :=
  <[i := v mod 256]> bytes.

(** 16-bit two's complement reading of an unsigned 16-bit value. *)
Definition to_int16 (u : Z) : Z :=
  let w := u mod 65536 in
  if 32768 <=? w then w - 65536 else w.

(** Reading a typed array; the indices used below are always in range. *)
Definition elem (a : list Z) (i : nat) : Z := default 0 (a !! i).

(** Element [i] of an [Int16Array] over [buffer]: bytes [2i] (low) and
    [2i+1] (high), little-endian. *)
Definition int16_at (buffer : list Z) (i : nat) : Z :=
  to_int16 (Z.lor (elem buffer (2 * i)) (Z.shiftl (elem buffer (2 * i + 1)) 8)).

(** [new Int16Array(buffer)]: a RangeError when the byte length is not a
    multiple of the element size. *)
Definition Int16Array_of_buffer (buffer : list Z) : completion (list Z) :=
  if (length buffer mod 2 =? 0)%nat
  then Normal (map (int16_at buffer) (seq 0 (length buffer / 2)))
  else Throw RangeError.

(** *** Platform audio objects *)

Record AudioBuffer := {
  numberOfChannels : nat;
  bufferLength : nat;
  sampleRate : Z;
  channelData : list Q   (* getChannelData(0) *)
}.

Inductive ContextState := Suspended | Running | Closed.

Record AudioContext := {
  state : ContextState;
  currentTime : Z   (* the context clock, counted in sample frames *)
}.

(** What the browser answers to the two calls [decodeAudio] makes on it. *)
Record Platform := {
  newAudioContext : completion AudioContext;
  createBuffer_accepts : nat -> nat -> Z -> bool
}.

(** [ctx.createBuffer(numChannels, frameCount, sampleRate)]: a silent buffer,
    or NotSupportedError when the platform refuses the arguments. *)
Definition createBuffer (P : Platform) (numChannels frameCount : nat) (rate : Z)
  : completion AudioBuffer :=
  if createBuffer_accepts P numChannels frameCount rate
  then Normal {| numberOfChannels := numChannels; bufferLength := frameCount;
                 sampleRate := rate; channelData := replicate frameCount 0%Q |}
  else Throw NotSupportedError.

(** A browser with Web Audio: a running context, and [createBuffer] accepting
    1..32 channels, at least one frame and rates of 8000..96000 Hz. *)
Definition browser : Platform := {|
  newAudioContext := Normal {| state := Running; currentTime := 0 |};
  createBuffer_accepts := fun ch n rate =>
    (1 <=? ch)%nat && (ch <=? 32)%nat && (1 <=? n)%nat && (8000 <=? rate) && (rate <=? 96000)
|}.

(** A buffer source node; [started] holds the offset given to [start]. *)
Record SourceNode := {
  buffer : option AudioBuffer;
  connected : bool;
  started : option Z;
  stopped : bool;
  onended : bool   (* the completion handler of [play] is installed *)
}.

(** *** Component state: React state, refs and the console *)
Record Player := {
  isPlaying : bool;
  hasError : bool;
  audioContextRef : option AudioContext;
  sourceRef : option SourceNode;
  audioBufferRef : option AudioBuffer;
  startTimeRef : Z;
  pauseTimeRef : Z;
  console : list ConsoleLine
}.

Definition mounted : Player := {|
  isPlaying := false; hasError := false; audioContextRef := None;
  sourceRef := None; audioBufferRef := None;
  startTimeRef := 0; pauseTimeRef := 0; console := []
|}.

Definition setIsPlaying (b : bool) (p : Player) : Player :=
  {| isPlaying := b; hasError := hasError p;
     audioContextRef := audioContextRef p;
     sourceRef := sourceRef p; audioBufferRef := audioBufferRef p;
     startTimeRef := startTimeRef p; pauseTimeRef := pauseTimeRef p;
     console := console p |}.

Definition setHasError (b : bool) (p : Player) : Player :=
  {| isPlaying := isPlaying p; hasError := b;
     audioContextRef := audioContextRef p;
     sourceRef := sourceRef p; audioBufferRef := audioBufferRef p;
     startTimeRef := startTimeRef p; pauseTimeRef := pauseTimeRef p;
     console := console p |}.

Definition set_audioContextRef (c : option AudioContext) (p : Player) : Player :=
  {| isPlaying := isPlaying p; hasError := hasError p;
     audioContextRef := c;
     sourceRef := sourceRef p; audioBufferRef := audioBufferRef p;
     startTimeRef := startTimeRef p; pauseTimeRef := pauseTimeRef p;
     console := console p |}.

Definition set_sourceRef (r : option SourceNode) (p : Player) : Player :=
  {| isPlaying := isPlaying p; hasError := hasError p;
     audioContextRef := audioContextRef p;
     sourceRef := r; audioBufferRef := audioBufferRef p;
     startTimeRef := startTimeRef p; pauseTimeRef := pauseTimeRef p;
     console := console p |}.

Definition set_audioBufferRef (b : option AudioBuffer) (p : Player) : Player :=
  {| isPlaying := isPlaying p; hasError := hasError p;
     audioContextRef := audioContextRef p;
     sourceRef := sourceRef p; audioBufferRef := b;
     startTimeRef := startTimeRef p; pauseTimeRef := pauseTimeRef p;
     console := console p |}.

Definition set_startTimeRef (t : Z) (p : Player) : Player :=
  {| isPlaying := isPlaying p; hasError := hasError p;
     audioContextRef := audioContextRef p;
     sourceRef := sourceRef p; audioBufferRef := audioBufferRef p;
     startTimeRef := t; pauseTimeRef := pauseTimeRef p;
     console := console p |}.

Definition set_pauseTimeRef (t : Z) (p : Player) : Player :=
  {| isPlaying := isPlaying p; hasError := hasError p;
     audioContextRef := audioContextRef p;
     sourceRef := sourceRef p; audioBufferRef := audioBufferRef p;
     startTimeRef := startTimeRef p; pauseTimeRef := t;
     console := console p |}.

Definition console_error (line : ConsoleLine) (p : Player) : Player :=
  {| isPlaying := isPlaying p; hasError := hasError p;
     audioContextRef := audioContextRef p;
     sourceRef := sourceRef p; audioBufferRef := audioBufferRef p;
     startTimeRef := startTimeRef p; pauseTimeRef := pauseTimeRef p;
     console := console p ++ [line] |}.

(** *** [decodeAudio] *)

(** The first loop: [bytes[i] = binaryString.charCodeAt(i)] for [i < len]. *)
Definition fill_bytes (binaryString : string) : list Z :=
  let len := String.length binaryString in
  foldl (fun bytes i => Uint8Array_set bytes i (charCodeAt binaryString i))
        (Uint8Array_new len) (seq 0 len).

(** The second loop: [channelData[i] = dataInt16[i] / 32768.0] for
    [i < frameCount]. A 16-bit integer over 2^15 is exactly representable in
    a 32-bit float, so the stored value is this rational. *)
Definition fill_channel (dataInt16 : list Z) (frameCount : nat)
    (channel : list Q) : list Q :=
  foldl (fun ch i => <[i := Qmake (elem dataInt16 i) 32768]> ch)
        channel (seq 0 frameCount).

(** Lines 24-41: from the payload to the filled buffer. *)
Definition decode_samples (P : Platform) (base64Audio : string)
  : completion AudioBuffer :=
  binaryString ← atob base64Audio;
  let bytes := fill_bytes binaryString in
  dataInt16 ← Int16Array_of_buffer bytes;
  let numChannels := 1%nat in
  let sampleRate := 24000 in
  let frameCount := length dataInt16 in
  buffer ← createBuffer P numChannels frameCount sampleRate;
  mret {| numberOfChannels := numberOfChannels buffer;
          bufferLength := bufferLength buffer;
          sampleRate := AudioPlayer.sampleRate buffer;
          channelData := fill_channel dataInt16 frameCount (channelData buffer) |}.

(** Lines 20-22: the context is created on first use. *)
Definition ensure_context (P : Platform) (p : Player) : completion Player :=
  match audioContextRef p with
  | Some _ => Normal p
  | None => ctx ← newAudioContext P; mret (set_audioContextRef (Some ctx) p)
  end.

(** The [catch] block. *)
Definition decode_failed (e : JSError) (p : Player) : Player :=
  setHasError true (console_error (ConsoleError "Error decoding audio" e) p).

(** [decodeAudio]: the [try] body, with the [catch] applied to the state
    reached when the exception was thrown. *)
Definition decodeAudio (P : Platform) (base64Audio : string) (p : Player) : Player :=
  match ensure_context P p with
  | Throw e => decode_failed e p
  | Normal p1 =>
      match decode_samples P base64Audio with
      | Normal buffer => set_audioBufferRef (Some buffer) p1
      | Throw e => decode_failed e p1
      end
  end.

(** The platform can hand the component an audio context. *)
Definition context_available (P : Platform) (p : Player) : bool :=
  match audioContextRef p, newAudioContext P with
  | Some _, _ => true
  | None, Normal _ => true
  | None, Throw _ => false
  end.

(** Sample [i] of a PCM byte string as the format defines it: the signed
    16-bit little-endian integer made of bytes [2i] and [2i+1]. *)
Definition pcm_sample (pcm : string) (i : nat) : Z :=
  let u := charCodeAt pcm (2 * i) + 256 * charCodeAt pcm (2 * i + 1) in
  if u <? 32768 then u else u - 65536.

(** *** [play], [pause], [stop] *)

(** [ctx.resume()], taken to fulfil. *)
Definition resume (ctx : AudioContext) : AudioContext :=
  {| state := Running; currentTime := currentTime ctx |}.

(** [ctx.createBufferSource()]. *)
Definition createBufferSource : SourceNode :=
  {| buffer := None; connected := false; started := None;
     stopped := false; onended := false |}.

Definition set_buffer (b : AudioBuffer) (n : SourceNode) : SourceNode :=
  {| buffer := Some b; connected := connected n; started := started n;
     stopped := stopped n; onended := onended n |}.

Definition connect (n : SourceNode) : SourceNode :=
  {| buffer := buffer n; connected := true; started := started n;
     stopped := stopped n; onended := onended n |}.

Definition disconnect (n : SourceNode) : SourceNode :=
  {| buffer := buffer n; connected := false; started := started n;
     stopped := stopped n; onended := onended n |}.

Definition set_onended (n : SourceNode) : SourceNode :=
  {| buffer := buffer n; connected := connected n; started := started n;
     stopped := stopped n; onended := true |}.

(** [node.start(0, offset)]: RangeError on a negative offset,
    InvalidStateError on a second call. *)
Definition node_start (offset : Z) (n : SourceNode) : completion SourceNode :=
  if offset <? 0 then Throw RangeError
  else match started n with
       | Some _ => Throw InvalidStateError
       | None => Normal {| buffer := buffer n; connected := connected n;
                           started := Some offset; stopped := stopped n;
                           onended := onended n |}
       end.

(** [node.stop()]: InvalidStateError on a node that was never started. *)
Definition node_stop (n : SourceNode) : completion SourceNode :=
  match started n with
  | None => Throw InvalidStateError
  | Some _ => Normal {| buffer := buffer n; connected := connected n;
                        started := started n; stopped := true;
                        onended := onended n |}
  end.

(** The [onended] handler installed by [play] (lines 81-84). *)
Definition on_ended (p : Player) : Player :=
  set_pauseTimeRef 0 (setIsPlaying false p).

(** [play] (lines 66-87). The await of [resume] is taken in one step. When
    [start] throws, the promise of [play] rejects, nobody handles it, and the
    state is the one reached at the throw. *)
Definition play (p : Player) : Player :=
  match audioBufferRef p, audioContextRef p with
  | Some audioBuffer, Some ctx0 =>
      let ctx := match state ctx0 with Suspended => resume ctx0 | _ => ctx0 end in
      let p := set_audioContextRef (Some ctx) p in
      let node := connect (set_buffer audioBuffer createBufferSource) in
      let p := set_sourceRef (Some node) p in
      let offset := pauseTimeRef p in
      match node_start offset node with
      | Throw _ => p
      | Normal node =>
          let p := set_sourceRef (Some node) p in
          let p := set_startTimeRef (currentTime ctx - offset) p in
          let p := set_sourceRef (Some (set_onended node)) p in
          setIsPlaying true p
      end
  | _, _ => p
  end.

(** [pause] (lines 89-98). An exception of [stop()] would leave the handler
    before any write. *)
Definition pause (p : Player) : Player :=
  match sourceRef p with
  | Some node =>
      if isPlaying p then
        match node_stop node with
        | Throw _ => p
        | Normal node =>
            let p := set_sourceRef (Some (disconnect node)) p in
            let p := match audioContextRef p with
                     | Some ctx => set_pauseTimeRef (currentTime ctx - startTimeRef p) p
                     | None => p
                     end in
            setIsPlaying false p
        end
      else p
  | None => p
  end.

(** [stop] (lines 100-108): the exception of [stop()] is swallowed. *)
Definition stop (p : Player) : Player :=
  let p := match sourceRef p with
           | Some node =>
               match node_stop node with
               | Normal node => set_sourceRef (Some node) p
               | Throw _ => p
               end
           | None => p
           end in
  setIsPlaying false (set_pauseTimeRef 0 p).

Definition handleToggle (p : Player) : Player :=
  if isPlaying p then pause p else play p.

(** The context clock moves on by [dt] frames. *)
Definition advance (dt : Z) (p : Player) : Player :=
  match audioContextRef p with
  | Some ctx => set_audioContextRef
                  (Some {| state := state ctx; currentTime := currentTime ctx + dt |}) p
  | None => p
  end.

(** What can happen to a mounted player. *)
Inductive Event :=
| Play
| Pause
| Stop
| Toggle
| Ended             (* the browser delivers a node's completion callback *)
| Advance (dt : Z).

Definition step (p : Player) (e : Event) : Player :=
  match e with
  | Play => play p
  | Pause => pause p
  | Stop => stop p
  | Toggle => handleToggle p
  | Ended => on_ended p
  | Advance dt => advance dt p
  end.

Definition run (es : list Event) (p : Player) : Player := foldl step p es.

(** A player whose current node was created but never started: [node.stop()]
    throws on it. *)
Definition unstarted : Player :=
  set_sourceRef (Some createBufferSource) (setIsPlaying true (set_pauseTimeRef 5 mounted)).

(** The offset at which the current playback unit was started. *)
Definition playing_from (p : Player) : option Z :=
  match sourceRef p with
  | Some node => started node
  | None => None
  end.

(** *** The mount effect (lines 50-64) *)

(** [ctx.close()]. *)
Definition close (ctx : AudioContext) : AudioContext :=
  {| state := Closed; currentTime := currentTime ctx |}.

(** The effect body: [decodeAudio().then(() => { if (autoPlay) play(); })]. *)
Definition mount (P : Platform) (base64Audio : string) (autoPlay : bool)
    (p : Player) : Player :=
  let p := decodeAudio P base64Audio p in
  if autoPlay then play p else p.

(** The effect cleanup: [stop()], then the context is closed unless it is
    closed already. *)
Definition cleanup (p : Player) : Player :=
  let p := stop p in
  match audioContextRef p with
  | Some ctx =>
      match state ctx with
      | Closed => p
      | _ => set_audioContextRef (Some (close ctx)) p
      end
  | None => p
  end.

(** *** Predicates on players and events *)

(** The browser owes the current node its [ended] event: a buffer source
    that was started and has stopped playing (its buffer ran out, or
    [stop()] was called on it) is sent [ended], and the handler runs if one
    is installed. *)
Definition ended_due (p : Player) : bool :=
  match sourceRef p with
  | Some node =>
      match started node with
      | Some _ => stopped node && onended node
      | None => false
      end
  | None => false
  end.

(** Six frames of silence. *)
Definition six_frames : string := "AAAAAAAAAAAAAAAA".



(** A character that [atob] neither skips, nor takes as padding, nor finds
    in the base64 alphabet. *)
Definition not_base64 (c : ascii) : Prop :=
  is_ascii_whitespace c = false /\ is_equals c = false /\ base64_index c = None.

End AudioPlayer.

(** ** The remote calls (services/geminiService.ts) *)

Module GeminiService.

(** Values as [JSON.parse] returns them, and [undefined] for what is absent.
    An object is a finite map from property names to values. *)
#[warnings="-register-all"]
Inductive JSValue :=
| JUndefined
| JNull
| JBool (b : bool)
| JNumber (n : Z)
| JString (s : string)
| JArray (l : list JSValue)
| JObject (fields : gmap string JSValue).

(** [v.name] for a name that no prototype defines: a TypeError on [null] and
    [undefined], the own property of an object, [undefined] otherwise. *)
Definition get_property (v : JSValue) (name : string) : completion JSValue :=
  match v with
  | JUndefined | JNull => Throw TypeError
  | JObject fields => Normal (default JUndefined (fields !! name))
  | _ => Normal JUndefined
  end.

(** The index clamping of [slice(start, end)]. *)
Definition slice_range (len start end_ : Z) : Z * Z :=
  let clamp k := if k <? 0 then Z.max (len + k) 0 else Z.min k len in
  (clamp start, clamp end_).

Definition string_slice (s : string) (start end_ : Z) : string :=
  let '(from, to) := slice_range (Z.of_nat (String.length s)) start end_ in
  String.substring (Z.to_nat from) (Z.to_nat (to - from)) s.

Definition array_slice {A} (l : list A) (start end_ : Z) : list A :=
  let '(from, to) := slice_range (Z.of_nat (length l)) start end_ in
  take (Z.to_nat (to - from)) (drop (Z.to_nat from) l).

(** [v.slice(start, end)]: strings and arrays have the method; on anything
    else the call is a TypeError. *)
Definition call_slice (v : JSValue) (start end_ : Z) : completion JSValue :=
  match v with
  | JString s => Normal (JString (string_slice s start end_))
  | JArray l => Normal (JArray (array_slice l start end_))
  | _ => Throw TypeError
  end.

(** Truthiness of a string that may be [undefined]. *)
Definition truthy (s : option string) : bool :=
  match s with
  | Some s => negb (String.eqb s "")
  | None => false
  end.

(** *** What [ai.models.generateContent] is asked and what it answers *)

Inductive Modality := AUDIO | IMAGE | TEXT.

(** The text of a diagram request is the JavaScript sum [prompt + suffix]. *)
Inductive Request :=
| ExplanationRequest (model : string) (contents : string)
| DiagramRequest (model : string) (prompt : JSValue) (suffix : string)
    (aspectRatio : string)
| SpeechRequest (model : string) (text : JSValue)
    (responseModalities : list Modality) (voiceName : string).

Record InlineData := { mimeType : option string; data : option string }.
Record Part := { inlineData : option InlineData }.
Record Content := { parts : option (list Part) }.
Record Candidate := { content : option Content }.

(** A response; [JSON_parse_text] is what [JSON.parse] makes of [text]:
    a value, or a SyntaxError when the text is not JSON. *)
Record GenerateContentResponse := {
  text : option string;
  JSON_parse_text : completion JSValue;
  candidates : option (list Candidate)
}.

(** The settled promise of a call: a response, or a rejection. *)
Definition Reply := completion GenerateContentResponse.

(** An async service function settles with lines written to the console and
    a value or a rejection. *)
Definition Settled (A : Type) : Type := list ConsoleLine * completion A.

Definition try_catch {A} (body : completion A)
    (handler : JSError -> Settled A) : Settled A :=
  match body with
  | Normal a => ([], Normal a)
  | Throw e => handler e
  end.

(** *** [generateExplanation] (lines 34-70) *)

Definition generateExplanation_call (userQuery : string) : Request :=
  ExplanationRequest "gemini-3-pro-preview" userQuery.

Definition generateExplanation (reply : Reply) : Settled JSValue :=
  try_catch
    (response ← reply;
     if truthy (text response) then JSON_parse_text response
     else Throw (Error "Empty response text from Gemini."))
    (fun error => ([ConsoleError "Explanation generation failed" error], Throw error)).

(** *** [generateDiagram] (lines 76-105) *)

Definition generateDiagram_call (prompt : JSValue) : Request :=
  DiagramRequest "gemini-2.5-flash-image" prompt
    " high contrast, schematic flowchart, white background, clear lines, minimalist design"
    "16:9".

(** [response.candidates?.[0]?.content?.parts] *)
Definition first_parts (response : GenerateContentResponse) : option (list Part) :=
  cs ← candidates response; c ← head cs; ct ← content c; parts ct.

(** The [for] loop: the data of the first part that carries some. *)
Fixpoint first_image (ps : list Part) : option string :=
  match ps with
  | [] => None
  | part :: rest =>
      match inlineData part with
      | Some inline =>
          if truthy (data inline) then data inline else first_image rest
      | None => first_image rest
      end
  end.

Definition generateDiagram (reply : Reply) : Settled string :=
  try_catch
    (response ← reply;
     match first_parts response ≫= first_image with
     | Some d => Normal ("data:image/png;base64," +:+ d)
     | None => Throw (Error "No image data found in response.")
     end)
    (fun error => ([ConsoleError "Image generation failed" error], Normal "")).

(** *** [generateSpeech] (lines 110-138) *)

Definition generateSpeech_call (text : JSValue) : Request :=
  SpeechRequest "gemini-2.5-flash-preview-tts" text [AUDIO] "Fenrir".

(** [response.candidates?.[0]?.content?.parts?.[0]?.inlineData?.data] *)
Definition first_audio (response : GenerateContentResponse) : option string :=
  ps ← first_parts response; part ← head ps; inline ← inlineData part; data inline.

Definition generateSpeech (reply : Reply) : Settled (option string) :=
  try_catch
    (response ← reply;
     let base64Audio := first_audio response in
     if truthy base64Audio then Normal base64Audio else Normal None)
    (fun error => ([ConsoleError "Speech generation failed" error], Normal None)).

(** *** Reading replies *)

(** The image data a reply carries, if any. *)
Definition image_of (reply : Reply) : option string :=
  match reply with
  | Normal response => first_parts response ≫= first_image
  | Throw _ => None
  end.

(** The error [generateDiagram] catches when there is no image. *)
Definition diagram_error (reply : Reply) : JSError :=
  match reply with
  | Normal _ => Error "No image data found in response."
  | Throw e => e
  end.

(** The audio payload a reply carries, if any. *)
Definition audio_of (reply : Reply) : option string :=
  match reply with
  | Normal response =>
      if truthy (first_audio response) then first_audio response else None
  | Throw _ => None
  end.

(** The explanation reply cannot be read: the call was rejected, or the
    response text is empty, or it is not JSON. *)
Definition unreadable (reply : Reply) : bool :=
  match reply with
  | Throw _ => true
  | Normal response =>
      negb (truthy (text response))
      || match JSON_parse_text response with
         | Throw _ => true
         | Normal _ => false
         end
  end.

(** The first [n] characters of a string. *)
Definition first_chars (n : nat) (s : string) : string :=
  string_of_list_ascii (take n (list_ascii_of_string s)).

(** A reply to the explanation call whose text parses to an object. *)
Definition explained (fields : gmap string JSValue) : Reply :=
  Normal {| text := Some "{...}";
            JSON_parse_text := Normal (JObject fields);
            candidates := None |}.

(** A reply carrying one part of inline data. *)
Definition inline_reply (d : string) : Reply :=
  Normal {| text := None;
            JSON_parse_text := Throw SyntaxError;
            candidates :=
              Some [ {| content :=
                          Some {| parts :=
                                    Some [ {| inlineData :=
                                                Some {| mimeType := None;
                                                        data := Some d |} |} ] |} |} ] |}.

(** *** [transcribeAudio] (lines 11-28) *)

(** The inline audio part of a transcription request; [data] is whatever
    the caller passed, possibly [undefined]. *)
Record TranscriptionRequest := {
  transcription_model : string;
  audio_mimeType : string;
  audio_data : option string;
  instruction : string
}.

Definition transcribeAudio_call (base64Audio : option string) (mimeType : string)
  : TranscriptionRequest :=
  {| transcription_model := "gemini-2.5-flash";
     audio_mimeType := mimeType;
     audio_data := base64Audio;
     instruction := "Transcribe the user's question or statement exactly as spoken. Do not add any commentary. Return only the transcript text." |}.

(** [return response.text || ""], and a fresh error in place of the one
    caught. *)
Definition transcribeAudio (reply : Reply) : Settled string :=
  try_catch
    (response ← reply;
     Normal (if truthy (text response) then default "" (text response) else ""))
    (fun error => ([ConsoleError "Transcription failed" error],
                   Throw (Error "Failed to transcribe audio."))).

(** A response of one candidate with the given parts. *)
Definition response_with_parts (ps : list Part) : GenerateContentResponse :=
  {| text := None;
     JSON_parse_text := Throw SyntaxError;
     candidates := Some [ {| content := Some {| parts := Some ps |} |} ] |}.

(** A part of text, and a part of inline data. *)
Definition text_part : Part := {| inlineData := None |}.
Definition data_part (mime d : string) : Part :=
  {| inlineData := Some {| mimeType := Some mime; data := Some d |} |}.

(** A part without usable inline data. *)
Definition dataless (part : Part) : Prop :=
  match inlineData part with
  | Some inline => truthy (data inline) = false
  | None => True
  end.

End GeminiService.

(** ** The request pipeline (App.tsx) *)

Module App.
Import GeminiService.

Inductive AppState :=
| IDLE
| RECORDING
| TRANSCRIBING
| PROCESSING_TEXT
| GENERATING_IMAGE
| GENERATING_AUDIO
| COMPLETED
| ERROR.

(** The result aggregate. The two texts hold whatever the parsed response
    had under their keys. *)
Record GeneratedContent := {
  text : JSValue;
  spatialDescription : JSValue;
  imageUrl : option string;
  audioUrl : option string
}.

(** React state of the component, the console, and the calls in flight. *)
Record App := {
  query : string;
  appState : AppState;
  content : option GeneratedContent;
  error : option string;
  console : list ConsoleLine;
  pending : list Request
}.

Definition initial : App := {|
  query := ""; appState := IDLE; content := None; error := None;
  console := []; pending := []
|}.

Definition setQuery (q : string) (a : App) : App :=
  {| query := q; appState := appState a; content := content a;
     error := error a; console := console a; pending := pending a |}.

Definition setAppState (st : AppState) (a : App) : App :=
  {| query := query a; appState := st; content := content a;
     error := error a; console := console a; pending := pending a |}.

(** [setContent] with an updater function, applied to the latest state. *)
Definition setContent (f : option GeneratedContent -> option GeneratedContent)
    (a : App) : App :=
  {| query := query a; appState := appState a; content := f (content a);
     error := error a; console := console a; pending := pending a |}.

Definition setError (e : option string) (a : App) : App :=
  {| query := query a; appState := appState a; content := content a;
     error := e; console := console a; pending := pending a |}.

Definition console_error (lines : list ConsoleLine) (a : App) : App :=
  {| query := query a; appState := appState a; content := content a;
     error := error a; console := console a ++ lines; pending := pending a |}.

Definition set_pending (rs : list Request) (a : App) : App :=
  {| query := query a; appState := appState a; content := content a;
     error := error a; console := console a; pending := rs |}.

(** Issuing a call puts its request in flight. *)
Definition send (r : Request) (a : App) : App :=
  set_pending (pending a ++ [r]) a.

(** *** Blocks that update the state and may throw *)

Definition Proc (A : Type) : Type := App -> completion A * App.

#[global] Instance Proc_ret : MRet Proc := fun _ x a => (Normal x, a).
#[global] Instance Proc_bind : MBind Proc := fun _ _ k m a =>
  match m a with
  | (Normal x, a') => k x a'
  | (Throw e, a') => (Throw e, a')
  end.

Definition eval {A} (c : completion A) : Proc A := fun a => (c, a).
Definition modify (f : App -> App) : Proc unit := fun a => (Normal tt, f a).

(** [await] of a service call: its console lines, then its value or its
    rejection thrown. *)
Definition await {A} (s : Settled A) : Proc A :=
  fun a => (snd s, console_error (fst s) a).

(** [try { body } catch (err) { handler }]: the handler runs on the state
    reached at the throw. *)
Definition try_catch (body : Proc unit) (handler : JSError -> App -> App)
    (a : App) : App :=
  match body a with
  | (Normal _, a') => a'
  | (Throw err, a') => handler err a'
  end.

(** [promise.then(onFulfilled).catch(onRejected)] for an [onFulfilled] that
    does not throw. *)
Definition then_catch {A} (s : Settled A) (onFulfilled : A -> App -> App)
    (onRejected : JSError -> App -> App) (a : App) : App :=
  let a := console_error (fst s) a in
  match snd s with
  | Normal v => onFulfilled v a
  | Throw err => onRejected err a
  end.

(** *** [handleProcess] (lines 158-196) *)

(** Up to the [await] (lines 159-165). *)
Definition handleProcess (a : App) : App :=
  if String.eqb (query a) "" then a
  else
    let a := setAppState PROCESSING_TEXT a in
    let a := setError None a in
    let a := setContent (fun _ => None) a in
    send (generateExplanation_call (query a)) a.

(** [prev => prev ? { ...prev, imageUrl } : null] *)
Definition with_imageUrl (imageUrl : string)
    (prev : option GeneratedContent) : option GeneratedContent :=
  match prev with
  | Some prev => Some {| text := text prev;
                         spatialDescription := spatialDescription prev;
                         imageUrl := Some imageUrl;
                         audioUrl := audioUrl prev |}
  | None => None
  end.

(** [prev => prev ? { ...prev, audioUrl: audioBase64 } : null] *)
Definition with_audioUrl (audioBase64 : string)
    (prev : option GeneratedContent) : option GeneratedContent :=
  match prev with
  | Some prev => Some {| text := text prev;
                         spatialDescription := spatialDescription prev;
                         imageUrl := imageUrl prev;
                         audioUrl := Some audioBase64 |}
  | None => None
  end.

(** From the [await] on (lines 165-195), [explained] being the settled
    promise of [generateExplanation]. *)
Definition handleProcess_resume (explained : Settled JSValue) : App -> App :=
  try_catch
    (explanationData ← await explained;
     explanation ← eval (get_property explanationData "explanation");
     spatial ← eval (get_property explanationData "spatialDescription");
     let initialContent := {| text := explanation; spatialDescription := spatial;
                              imageUrl := None; audioUrl := None |} in
     modify (setContent (fun _ => Some initialContent));;
     modify (setAppState COMPLETED);;
     imagePrompt ← eval (get_property explanationData "imagePrompt");
     modify (send (generateDiagram_call imagePrompt));;
     explanation ← eval (get_property explanationData "explanation");
     sliced ← eval (call_slice explanation 0 800);
     modify (send (generateSpeech_call sliced)))
    (fun err a =>
       let a := console_error [ConsoleErrorObject err] a in
       let a := setError (Some "Failed to generate content. Please try again or check your API key.") a in
       setAppState ERROR a).

(** The diagram promise chain (lines 175-181). *)
Definition diagram_settled (reply : Reply) : App -> App :=
  then_catch (generateDiagram reply)
    (fun imageUrl a =>
       if truthy (Some imageUrl) then setContent (with_imageUrl imageUrl) a else a)
    (fun err => console_error [ConsoleError "Diagram generation failed" err]).

(** The speech promise chain (lines 183-189). *)
Definition speech_settled (reply : Reply) : App -> App :=
  then_catch (generateSpeech reply)
    (fun audioBase64 a =>
       match audioBase64 with
       | Some audio =>
           if truthy (Some audio) then setContent (with_audioUrl audio) a else a
       | None => a
       end)
    (fun err => console_error [ConsoleError "Speech generation failed" err]).

(** *** The component as a transition system *)

Inductive Event :=
| Process                             (* the Explain button or the Enter key *)
| Settle (i : nat) (reply : Reply)    (* call [i] in flight settles *)
| Elsewhere (q : string) (st : AppState) (err : option string).
    (* typing, recording and transcription: they write the query, the phase
       and the error, never the content *)

Definition step (a : App) (e : Event) : App :=
  match e with
  | Process => handleProcess a
  | Settle i reply =>
      match pending a !! i with
      | None => a
      | Some request =>
          let a := set_pending (delete i (pending a)) a in
          match request with
          | ExplanationRequest _ _ => handleProcess_resume (generateExplanation reply) a
          | DiagramRequest _ _ _ _ => diagram_settled reply a
          | SpeechRequest _ _ _ _ => speech_settled reply a
          end
      end
  | Elsewhere q st err => setError err (setAppState st (setQuery q a))
  end.

Definition run (es : list Event) (a : App) : App := foldl step a es.

(** *** Predicates on the result aggregate *)

(** Between [before] and [after] nothing but the image changed. *)
Definition only_imageUrl_written (before after : option GeneratedContent) : Prop :=
  match before, after with
  | None, None => True
  | Some c, Some c' =>
      text c' = text c /\ spatialDescription c' = spatialDescription c
      /\ audioUrl c' = audioUrl c
      /\ (imageUrl c' = imageUrl c \/ exists url, imageUrl c' = Some url)
  | _, _ => False
  end.

(** Between [before] and [after] nothing but the audio changed. *)
Definition only_audioUrl_written (before after : option GeneratedContent) : Prop :=
  match before, after with
  | None, None => True
  | Some c, Some c' =>
      text c' = text c /\ spatialDescription c' = spatialDescription c
      /\ imageUrl c' = imageUrl c
      /\ (audioUrl c' = audioUrl c \/ exists audio, audioUrl c' = Some audio)
  | _, _ => False
  end.

(** A speech request as the pipeline issues it: the TTS model, audio only,
    the voice Fenrir, and at most 800 characters of text. *)
Definition speech_request_ok (r : Request) : Prop :=
  match r with
  | SpeechRequest model text modalities voice =>
      model = "gemini-2.5-flash-preview-tts" /\ modalities = [AUDIO]
      /\ voice = "Fenrir"
      /\ forall s, text = JString s -> (String.length s <= 800)%nat
  | _ => True
  end.

(** *** The scenario of the specification *)

Definition scenario_fields : gmap string JSValue :=
  <["explanation" := JString "# MoE"]>
    (<["spatialDescription" := JString "Flow starts top-left"]>
       (<["imagePrompt" := JString "flowchart of router"]> ∅)).

Definition scenario_response : GenerateContentResponse :=
  {| GeminiService.text := Some "{...}";
     JSON_parse_text := Normal (JObject scenario_fields);
     candidates := None |}.

(** The query typed, and the state once the explanation has arrived. *)
Definition asked : App := setQuery "Explain MoE routing" initial.
Definition answered : App :=
  run [Process; Settle 0 (Normal scenario_response)] asked.

(** The whole scenario as events: the query is typed, Explain is clicked,
    the explanation arrives, then the image, then the audio. *)
Definition scenario : list Event :=
  [Elsewhere "Explain MoE routing" IDLE None;
   Process;
   Settle 0 (Normal scenario_response);
   Settle 0 (inline_reply "iVBORw0KGgo=");
   Settle 0 (inline_reply "/38AgA==")].

(** Neither URL field holds the empty string. *)
Definition urls_nonempty (c : option GeneratedContent) : Prop :=
  match c with
  | None => True
  | Some c => imageUrl c <> Some "" /\ audioUrl c <> Some ""
  end.

End App.

(** ** Voice input (App.tsx) *)

Module Recording.
Import GeminiService App.

Definition SIMULATION_QUERY : string :=
  "Explain the Mixture-of-Experts (MoE) Architecture and, more importantly, describe the specific role of the Router Function within the sparse activation process.".

(** *** [getSupportedMimeType] (lines 61-75) *)

Definition types : list string :=
  ["audio/webm"; "audio/mp4"; "audio/ogg"; "audio/wav"; "audio/webm;codecs=opus"].

(** The [for] loop over the candidates. *)
Fixpoint first_supported (isTypeSupported : string -> bool) (candidates : list string)
  : string :=
  match candidates with
  | [] => ""
  | type :: rest =>
      if isTypeSupported type then type else first_supported isTypeSupported rest
  end.

Definition getSupportedMimeType (isTypeSupported : string -> bool) : string :=
  first_supported isTypeSupported types.

(** *** [blobToBase64] (lines 132-142) *)

(** [s.split(sep)] for a one-character separator. *)
Fixpoint split (sep : ascii) (s : string) : list string :=
  match s with
  | EmptyString => [""]
  | String c rest =>
      if Ascii.eqb c sep then "" :: split sep rest
      else match split sep rest with
           | head :: tail => String c head :: tail
           | [] => [String c ""]
           end
  end.

(** What the promise resolves to for a reader result:
    [result.split(',')[1]], which is [undefined] without a comma. *)
Definition blobToBase64 (result : string) : option string :=
  split "," result !! 1%nat.

(** *** Recorder objects and the component's refs *)

Record Blob := { size : nat; type : string }.

Inductive RecordingState := inactive | recording | paused.

Record MediaRecorder := { state : RecordingState; mimeType : string }.

(** The answer of [getUserMedia]: a stream, or a rejection with the name of
    its error. *)
Inductive MediaAccess := Granted | Refused (name : string).

(** The App with its recorder refs, the captured streams whose tracks still
    run, the blobs being read, the transcription calls in flight and the
    counters of the running simulation timers. *)
Record Studio := {
  app : App;
  mediaRecorderRef : option MediaRecorder;
  audioChunksRef : list Blob;
  liveStreams : nat;
  reading : list Blob;
  transcriptions : list TranscriptionRequest;
  timers : list nat
}.

Definition opened : Studio := {|
  app := initial; mediaRecorderRef := None; audioChunksRef := [];
  liveStreams := 0; reading := []; transcriptions := []; timers := []
|}.

Definition on_app (f : App -> App) (s : Studio) : Studio :=
  {| app := f (app s); mediaRecorderRef := mediaRecorderRef s;
     audioChunksRef := audioChunksRef s; liveStreams := liveStreams s;
     reading := reading s; transcriptions := transcriptions s;
     timers := timers s |}.

Definition set_mediaRecorderRef (r : option MediaRecorder) (s : Studio) : Studio :=
  {| app := app s; mediaRecorderRef := r;
     audioChunksRef := audioChunksRef s; liveStreams := liveStreams s;
     reading := reading s; transcriptions := transcriptions s;
     timers := timers s |}.

Definition set_audioChunksRef (chunks : list Blob) (s : Studio) : Studio :=
  {| app := app s; mediaRecorderRef := mediaRecorderRef s;
     audioChunksRef := chunks; liveStreams := liveStreams s;
     reading := reading s; transcriptions := transcriptions s;
     timers := timers s |}.

Definition set_liveStreams (n : nat) (s : Studio) : Studio :=
  {| app := app s; mediaRecorderRef := mediaRecorderRef s;
     audioChunksRef := audioChunksRef s; liveStreams := n;
     reading := reading s; transcriptions := transcriptions s;
     timers := timers s |}.

Definition set_reading (blobs : list Blob) (s : Studio) : Studio :=
  {| app := app s; mediaRecorderRef := mediaRecorderRef s;
     audioChunksRef := audioChunksRef s; liveStreams := liveStreams s;
     reading := blobs; transcriptions := transcriptions s;
     timers := timers s |}.

Definition set_transcriptions (calls : list TranscriptionRequest) (s : Studio)
  : Studio :=
  {| app := app s; mediaRecorderRef := mediaRecorderRef s;
     audioChunksRef := audioChunksRef s; liveStreams := liveStreams s;
     reading := reading s; transcriptions := calls;
     timers := timers s |}.

Definition set_timers (counters : list nat) (s : Studio) : Studio :=
  {| app := app s; mediaRecorderRef := mediaRecorderRef s;
     audioChunksRef := audioChunksRef s; liveStreams := liveStreams s;
     reading := reading s; transcriptions := transcriptions s;
     timers := counters |}.

(** *** [simulateVoiceInput] (lines 46-59) *)

Definition simulateVoiceInput (s : Studio) : Studio :=
  let s := on_app (setQuery "") s in
  let s := on_app (setError None) s in
  let s := on_app (setAppState RECORDING) s in
  set_timers (timers s ++ [0%nat]) s.

(** One firing of timer [k], whose counter is [i]. *)
Definition simulation_tick (k : nat) (s : Studio) : Studio :=
  match timers s !! k with
  | None => s
  | Some i =>
      let s := on_app (setQuery (string_slice SIMULATION_QUERY 0 (Z.of_nat i))) s in
      let i := S i in
      if (String.length SIMULATION_QUERY <? i)%nat
      then on_app (setAppState IDLE) (set_timers (delete k (timers s)) s)
      else set_timers (<[k := i]> (timers s)) s
  end.

(** *** [startRecording] (lines 77-114) *)

(** The [catch] block; the error object is logged by its name. *)
Definition microphone_failed (name : string) (a : App) : App :=
  let a := console_error [ConsoleError "Microphone error:" (Error name)] a in
  let a := if String.eqb name "NotAllowedError"
           then setError (Some "Microphone access blocked. Please allow permissions.") a
           else setError (Some "Could not access microphone.") a in
  setAppState IDLE a.

(** Up to the [await] of [getUserMedia]. *)
Definition startRecording (s : Studio) : Studio := on_app (setError None) s.

(** From the [await] on. The thrown [Error] has the name [Error]. *)
Definition startRecording_resume (media : MediaAccess)
    (isTypeSupported : string -> bool) (s : Studio) : Studio :=
  match media with
  | Refused name => on_app (microphone_failed name) s
  | Granted =>
      let s := set_liveStreams (S (liveStreams s)) s in
      let mimeType := getSupportedMimeType isTypeSupported in
      if String.eqb mimeType "" then on_app (microphone_failed "Error") s
      else
        let s := set_mediaRecorderRef
                   (Some {| state := inactive; mimeType := mimeType |}) s in
        let s := set_audioChunksRef [] s in
        let s := set_mediaRecorderRef
                   (Some {| state := recording; mimeType := mimeType |}) s in
        on_app (setAppState RECORDING) s
  end.

(** [recorder.ondataavailable] (lines 91-95). *)
Definition ondataavailable (data : Blob) (s : Studio) : Studio :=
  if (0 <? size data)%nat then set_audioChunksRef (audioChunksRef s ++ [data]) s
  else s.

(** [new Blob(chunks, { type })]. *)
Definition new_Blob (chunks : list Blob) (type : string) : Blob :=
  {| size := foldr (fun chunk n => (size chunk + n)%nat) 0%nat chunks;
     type := type |}.

(** *** [handleTranscription] (lines 144-156) *)

(** Up to the first [await]: the blob is handed to the reader. *)
Definition handleTranscription (blob : Blob) (s : Studio) : Studio :=
  let s := on_app (setAppState TRANSCRIBING) s in
  set_reading (reading s ++ [blob]) s.

(** The [catch] block. *)
Definition transcription_failed (err : JSError) (a : App) : App :=
  let a := console_error [ConsoleErrorObject err] a in
  let a := setError (Some "Failed to transcribe audio. Please check your network.") a in
  setAppState IDLE a.

(** The reader has settled for the oldest blob: on a result the
    transcription call is issued with [blobToBase64] of it. *)
Definition reader_settled (read : completion string) (s : Studio) : Studio :=
  match reading s with
  | [] => s
  | blob :: rest =>
      let s := set_reading rest s in
      match read with
      | Throw err => on_app (transcription_failed err) s
      | Normal result =>
          set_transcriptions
            (transcriptions s ++ [transcribeAudio_call (blobToBase64 result) (type blob)])
            s
      end
  end.

(** The oldest transcription call has settled. *)
Definition transcription_settled (reply : Reply) (s : Studio) : Studio :=
  match transcriptions s with
  | [] => s
  | _ :: rest =>
      let s := set_transcriptions rest s in
      on_app
        (try_catch
           (text ← await (transcribeAudio reply);
            modify (setQuery text);;
            modify (setAppState IDLE))
           transcription_failed)
        s
  end.

(** [recorder.onstop] (lines 97-101), for the recorder in the ref. *)
Definition onstop (s : Studio) : Studio :=
  match mediaRecorderRef s with
  | None => s
  | Some recorder =>
      let audioBlob := new_Blob (audioChunksRef s) (mimeType recorder) in
      let s := set_liveStreams (pred (liveStreams s)) s in
      handleTranscription audioBlob s
  end.

(** *** [stopRecording], [toggleRecording], [handleTextChange] *)

Definition stopRecording (s : Studio) : Studio :=
  match mediaRecorderRef s with
  | Some recorder =>
      match state recorder with
      | recording =>
          set_mediaRecorderRef
            (Some {| state := inactive; mimeType := mimeType recorder |}) s
      | _ => on_app (setAppState IDLE) s
      end
  | None => on_app (setAppState IDLE) s
  end.

Definition toggleRecording (s : Studio) : Studio :=
  match appState (app s) with
  | RECORDING => stopRecording s
  | _ => startRecording s
  end.

Definition handleTextChange (value : string) (s : Studio) : Studio :=
  on_app (fun a =>
            let a' := setQuery value a in
            if truthy (error a) then setError None a' else a') s.

(** *** The component with its voice input as a transition system *)

Inductive Event :=
| TextChange (value : string)
| Simulate
| SimulationTick (k : nat)
| ToggleRecording
| MicrophoneSettled (media : MediaAccess) (isTypeSupported : string -> bool)
| DataAvailable (data : Blob)
| RecorderStopped
| ReaderSettled (read : completion string)
| TranscriptionSettled (reply : Reply)
| Unmount
| Process
| Settle (i : nat) (reply : Reply).

Definition step (s : Studio) (e : Event) : Studio :=
  match e with
  | TextChange value => handleTextChange value s
  | Simulate => simulateVoiceInput s
  | SimulationTick k => simulation_tick k s
  | ToggleRecording => toggleRecording s
  | MicrophoneSettled media isTypeSupported =>
      startRecording_resume media isTypeSupported s
  | DataAvailable data => ondataavailable data s
  | RecorderStopped => onstop s
  | ReaderSettled read => reader_settled read s
  | TranscriptionSettled reply => transcription_settled reply s
  | Unmount => stopRecording s
  | Process => on_app handleProcess s
  | Settle i reply => on_app (fun a => App.step a (App.Settle i reply)) s
  end.

Definition run (es : list Event) (s : Studio) : Studio := foldl step s es.

(** The phases the component can show. *)
Definition phase_used (st : AppState) : Prop :=
  match st with
  | GENERATING_IMAGE | GENERATING_AUDIO => False
  | _ => True
  end.

(** [response.text || ""] *)
Definition transcript (r : GenerateContentResponse) : string :=
  if truthy (GeminiService.text r) then default "" (GeminiService.text r) else "".

(** The [dataavailable] events of chunks of the given sizes. *)
Definition chunks_of (type : string) (sizes : list nat) : list Event :=
  map (fun n => DataAvailable {| size := n; type := type |}) sizes.

(** A browser that records webm only. *)
Definition webm_only (type : string) : bool := String.eqb type "audio/webm".

(** The events of the voice input and of typing. *)
Definition voice_or_typing (e : Event) : Prop :=
  match e with
  | Process | Settle _ _ => False
  | _ => True
  end.

End Recording.

(** * Properties *)

Module AudioPlayerFacts.
Import AudioPlayer.

(** ** Array-filling loops *)

Section FillLoop.
Context {A : Type} (f : nat -> A).

Lemma fill_range (k a : nat) (l : list A) :
  (a + k <= length l)%nat ->
  foldl (fun acc i => <[i := f i]> acc) l (seq a k)
  = take a l ++ map f (seq a k) ++ drop (a + k) l.
Proof.
  revert a l. induction k as [|k IH]; intros a l Hlen; simpl.
  - rewrite Nat.add_0_r. symmetry. apply take_drop.
  - rewrite IH by (rewrite length_insert; lia).
    assert (Ha : (a < length l)%nat) by lia.
    rewrite (take_S_r (<[a:=f a]> l) a (f a))
      by (apply list_lookup_insert_eq; exact Ha).
    rewrite take_insert_ge by lia.
    rewrite drop_insert_lt by lia.
    rewrite <- app_assoc. simpl.
    replace (a + S k)%nat with (S (a + k)) by lia. reflexivity.
Qed.

Lemma fill_all (n : nat) (l : list A) :
  length l = n ->
  foldl (fun acc i => <[i := f i]> acc) l (seq 0 n) = map f (seq 0 n).
Proof.
  intros Hlen. rewrite fill_range by (simpl; lia). simpl.
  rewrite drop_ge by lia. apply app_nil_r.
Qed.
End FillLoop.

Lemma lookup_map_seq {A} (f : nat -> A) (n i : nat) :
  (i < n)%nat -> map f (seq 0 n) !! i = Some (f i).
Proof.
  intros Hi. change (map f (seq 0 n)) with (f <$> seq 0 n).
  rewrite list_lookup_fmap, lookup_seq_lt by exact Hi. reflexivity.
Qed.

(** ** Bytes *)

Lemma charCodeAt_range (s : string) (i : nat) : 0 <= charCodeAt s i < 256.
Proof.
  unfold charCodeAt. destruct (String.get i s) as [c|]; [|lia].
  pose proof (nat_ascii_bounded c). lia.
Qed.

Lemma fill_bytes_eq (s : string) :
  fill_bytes s = map (charCodeAt s) (seq 0 (String.length s)).
Proof.
  unfold fill_bytes, Uint8Array_set, Uint8Array_new.
  rewrite (fill_all (fun i => charCodeAt s i mod 256))
    by apply length_replicate.
  apply map_ext. intros i. apply Z.mod_small, charCodeAt_range.
Qed.

Lemma fill_bytes_length (s : string) : length (fill_bytes s) = String.length s.
Proof. rewrite fill_bytes_eq, length_map, length_seq. reflexivity. Qed.

Lemma elem_fill_bytes (s : string) (j : nat) :
  elem (fill_bytes s) j = charCodeAt s j.
Proof.
  unfold elem. rewrite fill_bytes_eq.
  destruct (decide (j < String.length s)%nat) as [Hj|Hj].
  - rewrite lookup_map_seq by exact Hj. reflexivity.
  - rewrite lookup_ge_None_2 by (rewrite length_map, length_seq; lia).
    simpl. unfold charCodeAt.
    assert (String.get j s = None) as ->; [|reflexivity].
    clear -Hj. revert j Hj. induction s as [|c s IH]; intros j Hj.
    + destruct j; reflexivity.
    + destruct j as [|j]; simpl in *; [lia|]. apply IH. lia.
  Qed.

(** Joining a low and a high byte with [lor] and [shiftl] adds them. *)
Lemma lor_shiftl_bytes (lo hi : Z) :
  0 <= lo < 256 -> 0 <= hi -> Z.lor lo (Z.shiftl hi 8) = lo + 256 * hi.
Proof.
  intros Hlo Hhi.
  assert (Hdisj : Z.land lo (Z.shiftl hi 8) = 0).
  { apply Z.bits_inj'. intros n Hn.
    rewrite Z.land_spec, Z.bits_0.
    destruct (Z.lt_ge_cases n 8) as [Hlt|Hge].
    - rewrite (Z.shiftl_spec_low hi 8 n) by lia. apply andb_false_r.
    - rewrite <- (Z.mod_small lo (2 ^ 8)) by (change (2 ^ 8) with 256; lia).
      rewrite Z.mod_pow2_bits_high by lia. reflexivity. }
  rewrite <- Z.lxor_lor by exact Hdisj.
  rewrite <- Z.add_nocarry_lxor by exact Hdisj.
  rewrite Z.shiftl_mul_pow2 by lia. change (2 ^ 8) with 256. lia.
Qed.

Lemma int16_at_fill_bytes (s : string) (i : nat) :
  int16_at (fill_bytes s) i = pcm_sample s i.
Proof.
  unfold int16_at, pcm_sample. rewrite !elem_fill_bytes.
  pose proof (charCodeAt_range s (2 * i)) as Hlo.
  pose proof (charCodeAt_range s (2 * i + 1)) as Hhi.
  rewrite lor_shiftl_bytes by lia.
  unfold to_int16. rewrite Z.mod_small by lia.
  destruct (Z.leb_spec 32768 (charCodeAt s (2 * i) + 256 * charCodeAt s (2 * i + 1)));
    destruct (Z.ltb_spec (charCodeAt s (2 * i) + 256 * charCodeAt s (2 * i + 1)) 32768);
    lia.
Qed.

(** ** The decoder *)

Lemma even_mod2 (n : nat) : Nat.even n = (n mod 2 =? 0)%nat.
Proof.
  destruct (Nat.even n) eqn:E; symmetry.
  - apply Nat.even_spec in E. destruct E as [k ->].
    apply Nat.eqb_eq. rewrite Nat.mul_comm. apply Nat.Div0.mod_mul.
  - apply Nat.eqb_neq. intros Hm.
    assert (Nat.even n = true); [|congruence].
    apply Nat.even_spec. exists (n / 2)%nat.
    pose proof (Nat.div_mod_eq n 2). lia.
Qed.

Lemma Int16Array_of_fill_bytes (pcm : string) :
  Int16Array_of_buffer (fill_bytes pcm)
  = if Nat.even (String.length pcm)
    then Normal (map (pcm_sample pcm) (seq 0 (String.length pcm / 2)))
    else Throw RangeError.
Proof.
  unfold Int16Array_of_buffer.
  rewrite fill_bytes_length, <- even_mod2.
  destruct (Nat.even (String.length pcm)); [|reflexivity].
  f_equal. apply map_ext. intros i. apply int16_at_fill_bytes.
Qed.

Lemma elem_map_seq (f : nat -> Z) (n i : nat) :
  (i < n)%nat -> elem (map f (seq 0 n)) i = f i.
Proof. intros Hi. unfold elem. rewrite lookup_map_seq by exact Hi. reflexivity. Qed.

Lemma fill_channel_eq (f : nat -> Z) (n : nat) :
  fill_channel (map f (seq 0 n)) n (replicate n 0%Q)
  = map (fun i => Qmake (f i) 32768) (seq 0 n).
Proof.
  unfold fill_channel. rewrite fill_all by apply length_replicate.
  apply map_ext_in. intros i Hi. apply in_seq in Hi.
  rewrite elem_map_seq by lia. reflexivity.
Qed.

Lemma decode_samples_even (P : Platform) (payload pcm : string) :
  atob payload = Normal pcm ->
  Nat.even (String.length pcm) = true ->
  createBuffer_accepts P 1 (String.length pcm / 2) 24000 = true ->
  decode_samples P payload
  = Normal {| numberOfChannels := 1;
              bufferLength := String.length pcm / 2;
              sampleRate := 24000;
              channelData := map (fun i => Qmake (pcm_sample pcm i) 32768)
                                 (seq 0 (String.length pcm / 2)) |}.
Proof.
  intros Hatob Heven Hacc. unfold decode_samples.
  rewrite Hatob. cbn [mbind completion_bind].
  rewrite Int16Array_of_fill_bytes, Heven. cbn [mbind completion_bind].
  rewrite length_map, length_seq. unfold createBuffer. rewrite Hacc.
  cbn [mbind completion_bind mret completion_ret numberOfChannels bufferLength
       AudioPlayer.sampleRate channelData].
  rewrite fill_channel_eq. reflexivity.
Qed.

Lemma decode_samples_odd (P : Platform) (payload pcm : string) :
  atob payload = Normal pcm ->
  Nat.odd (String.length pcm) = true ->
  decode_samples P payload = Throw RangeError.
Proof.
  intros Hatob Hodd. unfold decode_samples.
  rewrite Hatob. cbn [mbind completion_bind].
  rewrite Int16Array_of_fill_bytes.
  rewrite <- Nat.negb_even in Hodd. apply negb_true_iff in Hodd.
  rewrite Hodd. reflexivity.
Qed.

(** On any platform: for a valid base64 payload of even decoded byte length,
    when the platform provides the audio context and the buffer,
    [decodeAudio] stores a
    buffer of (byte length / 2) samples, and sample [i] is the signed 16-bit
    little-endian integer of bytes [2i], [2i+1] divided by 32768. *)
Theorem decodeAudio_even_length
    (P : Platform) (payload pcm : string) (p : Player) :
  atob payload = Normal pcm ->
  Nat.even (String.length pcm) = true ->
  context_available P p = true ->
  createBuffer_accepts P 1 (String.length pcm / 2) 24000 = true ->
  exists audioBuffer,
    audioBufferRef (decodeAudio P payload p) = Some audioBuffer
    /\ hasError (decodeAudio P payload p) = hasError p
    /\ bufferLength audioBuffer = (String.length pcm / 2)%nat
    /\ length (channelData audioBuffer) = (String.length pcm / 2)%nat
    /\ forall i, (i < String.length pcm / 2)%nat ->
         channelData audioBuffer !! i = Some (Qmake (pcm_sample pcm i) 32768).
Proof.
  intros Hatob Heven Hctx Hacc.
  pose proof (decode_samples_even P payload pcm Hatob Heven Hacc) as Hdec.
  assert (Hres : audioBufferRef (decodeAudio P payload p)
                 = Some {| numberOfChannels := 1;
                           bufferLength := String.length pcm / 2;
                           sampleRate := 24000;
                           channelData :=
                             map (fun i => Qmake (pcm_sample pcm i) 32768)
                                 (seq 0 (String.length pcm / 2)) |}
                 /\ hasError (decodeAudio P payload p) = hasError p).
  { unfold decodeAudio, ensure_context, context_available in *.
    destruct (audioContextRef p) as [ctx|].
    - rewrite Hdec. split; reflexivity.
    - destruct (newAudioContext P) as [ctx|e]; [|discriminate].
      cbn [mbind completion_bind mret completion_ret]. rewrite Hdec.
      split; reflexivity. }
  destruct Hres as [Hbuf Herr]. eexists. split; [exact Hbuf|].
  split; [exact Herr|]. cbn [bufferLength channelData].
  split; [reflexivity|]. split.
  - rewrite length_map, length_seq. reflexivity.
  - intros i Hi.
    exact (lookup_map_seq (fun j => Qmake (pcm_sample pcm j) 32768) _ i Hi).
Qed.

Lemma decodeAudio_even_length_witness :
  exists audioBuffer,
    audioBufferRef (decodeAudio browser "/38AgA==" mounted) = Some audioBuffer
    /\ hasError (decodeAudio browser "/38AgA==" mounted) = hasError mounted
    /\ bufferLength audioBuffer = 2%nat
    /\ length (channelData audioBuffer) = 2%nat
    /\ forall i, (i < 2)%nat ->
         channelData audioBuffer !! i
         = Some (Qmake (pcm_sample (binary_string [255; 127; 0; 128]) i) 32768).
Proof.
  apply (decodeAudio_even_length browser "/38AgA=="
           (binary_string [255; 127; 0; 128]) mounted); reflexivity.
Defined.

(** C2, as the code has it: for a payload of odd decoded byte length the
    16-bit view raises a RangeError, which [decodeAudio] catches; the call
    returns, the error is logged, the player is flagged unavailable and no
    buffer is stored. *)
Theorem decodeAudio_odd_length
    (P : Platform) (payload pcm : string) (p : Player) :
  atob payload = Normal pcm ->
  Nat.odd (String.length pcm) = true ->
  decode_samples P payload = Throw RangeError
  /\ hasError (decodeAudio P payload p) = true
  /\ audioBufferRef (decodeAudio P payload p) = audioBufferRef p
  /\ exists e, console (decodeAudio P payload p)
               = console p ++ [ConsoleError "Error decoding audio" e].
Proof.
  intros Hatob Hodd.
  pose proof (decode_samples_odd P payload pcm Hatob Hodd) as Hdec.
  split; [exact Hdec|].
  unfold decodeAudio, ensure_context.
  destruct (audioContextRef p) as [ctx|].
  - rewrite Hdec. cbn. eauto.
  - destruct (newAudioContext P) as [ctx|e];
      cbn [mbind completion_bind mret completion_ret];
      [rewrite Hdec|]; cbn; eauto.
Qed.

Lemma decodeAudio_odd_length_witness :
  decode_samples browser "AAAA" = Throw RangeError
  /\ hasError (decodeAudio browser "AAAA" mounted) = true
  /\ audioBufferRef (decodeAudio browser "AAAA" mounted) = audioBufferRef mounted
  /\ exists e, console (decodeAudio browser "AAAA" mounted)
               = console mounted ++ [ConsoleError "Error decoding audio" e].
Proof.
  apply (decodeAudio_odd_length browser "AAAA" (binary_string [0; 0; 0]) mounted);
    reflexivity.
Defined.

(** C2 as stated fails: the three-byte payload [AAAA] decodes to no sample at
    all, not to the one sample a dropped trailing byte would leave. *)
Lemma decodeAudio_odd_length_keeps_no_sample :
  atob "AAAA" = Normal (binary_string [0; 0; 0])
  /\ String.length (binary_string [0; 0; 0]) = 3%nat
  /\ ~ (exists audioBuffer,
          audioBufferRef (decodeAudio browser "AAAA" mounted) = Some audioBuffer
          /\ length (channelData audioBuffer) = (3 / 2)%nat).
Proof.
  split; [reflexivity|]. split; [reflexivity|].
  intros [audioBuffer [Href _]]. vm_compute in Href. discriminate Href.
Qed.

(** ** The playback controller *)

Lemma play_ready (p : Player) (audioBuffer : AudioBuffer) (ctx : AudioContext) :
  audioBufferRef p = Some audioBuffer ->
  audioContextRef p = Some ctx ->
  0 <= pauseTimeRef p ->
  isPlaying (play p) = true
  /\ playing_from (play p) = Some (pauseTimeRef p)
  /\ startTimeRef (play p) = currentTime ctx - pauseTimeRef p
  /\ (currentTime <$> audioContextRef (play p)) = Some (currentTime ctx)
  /\ audioBufferRef (play p) = Some audioBuffer
  /\ pauseTimeRef (play p) = pauseTimeRef p.
Proof.
  intros Hbuf Hctx Hoff. unfold play, playing_from. rewrite Hbuf, Hctx.
  cbn [pauseTimeRef set_sourceRef set_audioContextRef].
  unfold node_start.
  destruct (Z.ltb_spec (pauseTimeRef p) 0) as [Hneg|_]; [lia|].
  destruct (state ctx); cbn; repeat split; assumption.
Qed.

Lemma pause_playing (p : Player) (node : SourceNode) (ctx : AudioContext) (o : Z) :
  sourceRef p = Some node ->
  started node = Some o ->
  isPlaying p = true ->
  audioContextRef p = Some ctx ->
  isPlaying (pause p) = false
  /\ pauseTimeRef (pause p) = currentTime ctx - startTimeRef p
  /\ audioBufferRef (pause p) = audioBufferRef p
  /\ audioContextRef (pause p) = Some ctx.
Proof.
  intros Hsrc Hst Hplay Hctx. unfold pause, node_stop.
  rewrite Hsrc, Hplay, Hst. cbn. rewrite Hctx. cbn. repeat split; assumption.
Qed.

(** The bookkeeping by itself: [play()], [pause()] after [t] frames of the
    context clock, then (after any idle time) [play()] again starts the new
    unit at offset [t], provided no completion callback runs between the
    three calls. *)
Theorem play_pause_play_resumes
    (p : Player) (audioBuffer : AudioBuffer) (ctx : AudioContext) (t idle : Z) :
  audioBufferRef p = Some audioBuffer ->
  audioContextRef p = Some ctx ->
  pauseTimeRef p = 0 ->
  0 <= t ->
  let playing := run [Play; Advance t] p in
  let paused := run [Pause] playing in
  let resumed := run [Advance idle; Play] paused in
  isPlaying playing = true
  /\ playing_from playing = Some 0
  /\ (exists now, (currentTime <$> audioContextRef playing) = Some now
                 /\ pauseTimeRef paused = now - startTimeRef playing)
  /\ isPlaying paused = false
  /\ pauseTimeRef paused = t
  /\ isPlaying resumed = true
  /\ playing_from resumed = Some t.
Proof.
  intros Hbuf Hctx Hoff Ht. cbn [run foldl step].
  destruct (play_ready p audioBuffer ctx Hbuf Hctx ltac:(lia))
    as (Hp1 & Hfrom1 & Hstart1 & Hnow1 & Hbuf1 & Hoff1).
  rewrite Hoff in *.
  destruct (audioContextRef (play p)) as [ctx1|] eqn:Hctx1; [|discriminate].
  injection Hnow1 as Hnow1.
  assert (Hadv : advance t (play p)
                 = set_audioContextRef
                     (Some {| state := state ctx1;
                              currentTime := currentTime ctx1 + t |}) (play p)).
  { unfold advance. rewrite Hctx1. reflexivity. }
  rewrite Hadv.
  set (playing := set_audioContextRef _ (play p)).
  assert (Hsrc : exists node, sourceRef playing = Some node /\ started node = Some 0).
  { unfold playing_from in Hfrom1. subst playing. cbn.
    destruct (sourceRef (play p)) as [node|]; [eauto|discriminate]. }
  destruct Hsrc as (node & Hsrc & Hst).
  destruct (pause_playing playing node
              {| state := state ctx1; currentTime := currentTime ctx1 + t |} 0
              Hsrc Hst Hp1 eq_refl)
    as (Hp2 & Hoff2 & Hbuf2 & Hctx2).
  cbn [currentTime] in Hoff2.
  assert (Hstart : startTimeRef playing = currentTime ctx) by (subst playing; cbn; lia).
  assert (Hoff2' : pauseTimeRef (pause playing) = t) by lia.
  split; [exact Hp1|].
  split; [exact Hfrom1|].
  split; [exists (currentTime ctx1 + t); split; [reflexivity|lia]|].
  split; [exact Hp2|].
  split; [exact Hoff2'|].
  assert (Hadv2 : advance idle (pause playing)
                  = set_audioContextRef
                      (Some {| state := state ctx1;
                               currentTime := currentTime ctx1 + t + idle |})
                      (pause playing)).
  { unfold advance. rewrite Hctx2. reflexivity. }
  rewrite Hadv2.
  destruct (play_ready (set_audioContextRef
                          (Some {| state := state ctx1;
                                   currentTime := currentTime ctx1 + t + idle |})
                          (pause playing))
              audioBuffer
              {| state := state ctx1; currentTime := currentTime ctx1 + t + idle |})
    as (Hp3 & Hfrom3 & _).
  - cbn. rewrite Hbuf2. subst playing. cbn. exact Hbuf1.
  - reflexivity.
  - cbn. lia.
  - split; [exact Hp3|]. rewrite Hfrom3. cbn. f_equal. exact Hoff2'.
Qed.

Lemma play_pause_play_resumes_witness :
  let p := decodeAudio browser six_frames mounted in
  let playing := run [Play; Advance 3] p in
  let paused := run [Pause] playing in
  let resumed := run [Advance 2; Play] paused in
  isPlaying playing = true
  /\ playing_from playing = Some 0
  /\ (exists now, (currentTime <$> audioContextRef playing) = Some now
                 /\ pauseTimeRef paused = now - startTimeRef playing)
  /\ isPlaying paused = false
  /\ pauseTimeRef paused = 3
  /\ isPlaying resumed = true
  /\ playing_from resumed = Some 3.
Proof.
  eapply (play_pause_play_resumes (decodeAudio browser six_frames mounted)
            _ _ 3 2); [reflexivity | reflexivity | reflexivity | lia].
Defined.

(** The stored offset does not survive a completion callback: if the browser
    delivers one between [pause()] and the next [play()], playback starts
    over from 0. *)
Lemma ended_after_pause_forgets_offset :
  playing_from (run [Play; Advance 7; Pause; Ended; Play]
                    (decodeAudio browser "/38AgA==" mounted)) = Some 0.
Proof. reflexivity. Qed.

Lemma unstarted_stop_throws :
  (sourceRef unstarted ≫= fun node => Some (node_stop node))
  = Some (Throw InvalidStateError).
Proof. reflexivity. Qed.

(** C7: from any state, [stop()] leaves [isPlaying = false] and offset 0,
    also when called twice and when the node's own [stop()] throws; the
    completion handler leaves the same, so that the next [play()] (when a
    buffer and a context exist) starts at offset 0. *)
Theorem stop_resets (p : Player) :
  (isPlaying (stop p) = false /\ pauseTimeRef (stop p) = 0)
  /\ (isPlaying (run [Stop; Stop] p) = false /\ pauseTimeRef (run [Stop; Stop] p) = 0)
  /\ (isPlaying (stop unstarted) = false /\ pauseTimeRef (stop unstarted) = 0)
  /\ (isPlaying (on_ended p) = false /\ pauseTimeRef (on_ended p) = 0)
  /\ playing_from (run [Ended; Play] p)
     = match audioBufferRef p, audioContextRef p with
       | Some _, Some _ => Some 0
       | _, _ => playing_from p
       end.
Proof.
  split; [split; reflexivity|].
  split; [split; reflexivity|].
  split; [split; reflexivity|].
  split; [split; reflexivity|].
  cbn [run foldl step]. unfold play, on_ended, playing_from. cbn.
  destruct (audioBufferRef p), (audioContextRef p) as [ctx|]; try reflexivity.
Qed.

(** ** Pause and the completion callback *)

(** C1, at the failing input: with a decoded buffer, [play()] at offset [o]
    and [pause()] [t] frames later, inside the buffer, store the offset
    [o + t] as the claim says. But [pause()] has stopped the node on which
    [play()] installed its completion handler, so the browser sends that
    node [ended]; the handler zeroes the stored offset, and the next
    [play()] starts from 0 instead of [o + t]. *)
Theorem pause_offset_lost_on_ended
    (p : Player) (audioBuffer : AudioBuffer) (ctx : AudioContext) (t : Z) :
  audioBufferRef p = Some audioBuffer ->
  audioContextRef p = Some ctx ->
  0 <= pauseTimeRef p ->
  0 <= t ->
  pauseTimeRef p + t < Z.of_nat (bufferLength audioBuffer) ->
  let paused := run [Play; Advance t; Pause] p in
  pauseTimeRef paused = pauseTimeRef p + t
  /\ isPlaying paused = false
  /\ ended_due paused = true
  /\ pauseTimeRef (run [Ended] paused) = 0
  /\ playing_from (run [Ended; Play] paused) = Some 0
  /\ isPlaying (run [Ended; Play] paused) = true.
Proof.
  intros Hbuf Hctx Hoff Ht _. cbv zeta.
  destruct p as [ip he acr sr abr st pt co]. cbn in Hbuf, Hctx, Hoff. subst.
  assert (Hplay : play {| isPlaying := ip; hasError := he;
                          audioContextRef := Some ctx; sourceRef := sr;
                          audioBufferRef := Some audioBuffer;
                          startTimeRef := st; pauseTimeRef := pt; console := co |}
                  = {| isPlaying := true; hasError := he;
                       audioContextRef :=
                         Some match state ctx with
                              | Suspended => resume ctx
                              | _ => ctx
                              end;
                       sourceRef :=
                         Some {| buffer := Some audioBuffer; connected := true;
                                 started := Some pt; stopped := false;
                                 onended := true |};
                       audioBufferRef := Some audioBuffer;
                       startTimeRef :=
                         currentTime match state ctx with
                                     | Suspended => resume ctx
                                     | _ => ctx
                                     end - pt;
                       pauseTimeRef := pt; console := co |}).
  { unfold play. cbn [audioBufferRef audioContextRef pauseTimeRef set_sourceRef
                      set_audioContextRef].
    unfold node_start. destruct (Z.ltb_spec pt 0) as [?|_]; [lia|]. reflexivity. }
  unfold run. cbn [foldl step]. rewrite Hplay.
  assert (Hnow : currentTime match state ctx with
                             | Suspended => resume ctx
                             | _ => ctx
                             end = currentTime ctx)
    by (destruct (state ctx); reflexivity).
  cbn. rewrite Hnow. repeat split; try reflexivity. lia.
Qed.

Lemma pause_offset_lost_on_ended_witness :
  let p := decodeAudio browser six_frames mounted in
  let paused := run [Play; Advance 3; Pause] p in
  pauseTimeRef paused = pauseTimeRef p + 3
  /\ isPlaying paused = false
  /\ ended_due paused = true
  /\ pauseTimeRef (run [Ended] paused) = 0
  /\ playing_from (run [Ended; Play] paused) = Some 0
  /\ isPlaying (run [Ended; Play] paused) = true.
Proof.
  eapply (pause_offset_lost_on_ended (decodeAudio browser six_frames mounted) _ _ 3);
    [reflexivity | reflexivity | vm_compute; discriminate | lia
    | vm_compute; reflexivity].
Defined.

(** ** Even payloads in a browser *)

Lemma browser_provides_context (p : Player) : context_available browser p = true.
Proof. unfold context_available. destruct (audioContextRef p); reflexivity. Qed.

Lemma browser_accepts_frames (n : nat) :
  createBuffer_accepts browser 1 n 24000 = (1 <=? n)%nat.
Proof. cbn. rewrite !andb_true_r. reflexivity. Qed.

Lemma even_half_positive (n : nat) :
  Nat.even n = true -> n <> 0%nat -> (1 <=? n / 2)%nat = true.
Proof.
  intros He Hn. apply Nat.even_spec in He. destruct He as [k ->].
  rewrite Nat.mul_comm, Nat.div_mul by discriminate.
  apply Nat.leb_le. lia.
Qed.

(** C6, as the code has it: in a browser, a valid base64 payload of even and
    non-zero decoded byte length is decoded to (byte length / 2) samples,
    sample [i] being the signed 16-bit little-endian integer of bytes [2i],
    [2i+1] divided by 32768; a payload that decodes to zero bytes gives no
    buffer: [createBuffer] refuses zero frames and the player is flagged
    unavailable. *)
Theorem decodeAudio_even_length_in_browser (payload pcm : string) (p : Player) :
  atob payload = Normal pcm ->
  Nat.even (String.length pcm) = true ->
  if (String.length pcm =? 0)%nat
  then hasError (decodeAudio browser payload p) = true
       /\ audioBufferRef (decodeAudio browser payload p) = audioBufferRef p
  else exists audioBuffer,
      audioBufferRef (decodeAudio browser payload p) = Some audioBuffer
      /\ hasError (decodeAudio browser payload p) = hasError p
      /\ bufferLength audioBuffer = (String.length pcm / 2)%nat
      /\ length (channelData audioBuffer) = (String.length pcm / 2)%nat
      /\ forall i, (i < String.length pcm / 2)%nat ->
           channelData audioBuffer !! i = Some (Qmake (pcm_sample pcm i) 32768).
Proof.
  intros Hatob Heven.
  destruct (Nat.eqb_spec (String.length pcm) 0) as [Hz|Hnz].
  - destruct pcm as [|c pcm]; [|discriminate Hz].
    assert (Hdec : decode_samples browser payload = Throw NotSupportedError).
    { unfold decode_samples. rewrite Hatob. reflexivity. }
    unfold decodeAudio, ensure_context.
    destruct (audioContextRef p) as [ctx|]; cbn [newAudioContext browser mbind
      completion_bind mret completion_ret]; rewrite Hdec; split; reflexivity.
  - apply (decodeAudio_even_length browser payload pcm p Hatob Heven).
    + apply browser_provides_context.
    + rewrite browser_accepts_frames. apply even_half_positive; assumption.
Qed.

Lemma decodeAudio_even_length_in_browser_witness :
  exists audioBuffer,
    audioBufferRef (decodeAudio browser "/38AgA==" mounted) = Some audioBuffer
    /\ hasError (decodeAudio browser "/38AgA==" mounted) = hasError mounted
    /\ bufferLength audioBuffer = 2%nat
    /\ length (channelData audioBuffer) = 2%nat
    /\ forall i, (i < 2)%nat ->
         channelData audioBuffer !! i
         = Some (Qmake (pcm_sample (binary_string [255; 127; 0; 128]) i) 32768).
Proof.
  apply (decodeAudio_even_length_in_browser "/38AgA=="
           (binary_string [255; 127; 0; 128]) mounted); reflexivity.
Defined.

(** C6 as stated fails: a payload of one space is valid base64 for zero
    bytes, an even length, and decoding it in a browser stores no buffer of
    zero samples but flags the player unavailable. *)
Lemma decodeAudio_zero_bytes_unavailable :
  atob " " = Normal ""
  /\ Nat.even (String.length "") = true
  /\ hasError (decodeAudio browser " " mounted) = true
  /\ ~ (exists audioBuffer,
          audioBufferRef (decodeAudio browser " " mounted) = Some audioBuffer
          /\ length (channelData audioBuffer) = (String.length "" / 2)%nat).
Proof.
  split; [reflexivity|]. split; [reflexivity|]. split; [reflexivity|].
  intros [audioBuffer [Href _]]. vm_compute in Href. discriminate Href.
Qed.

End AudioPlayerFacts.

Module PipelineFacts.
Import GeminiService App.

(** ** The services *)

Lemma generateDiagram_value (reply : Reply) :
  generateDiagram reply
  = match image_of reply with
    | Some d => ([], Normal ("data:image/png;base64," +:+ d))
    | None => ([ConsoleError "Image generation failed" (diagram_error reply)],
               Normal "")
    end.
Proof.
  unfold generateDiagram, image_of, diagram_error, GeminiService.try_catch.
  destruct reply as [response|e]; cbn; [|reflexivity].
  destruct (first_parts response ≫= first_image); reflexivity.
Qed.

Lemma generateSpeech_value (reply : Reply) :
  generateSpeech reply
  = match reply with
    | Normal _ => ([], Normal (audio_of reply))
    | Throw e => ([ConsoleError "Speech generation failed" e], Normal None)
    end.
Proof.
  unfold generateSpeech, audio_of, GeminiService.try_catch.
  destruct reply as [response|e]; cbn; [|reflexivity].
  destruct (truthy (first_audio response)); reflexivity.
Qed.

Lemma truthy_nonempty (s : string) : truthy (Some s) = true -> s <> "".
Proof. cbn. intros H ->. discriminate H. Qed.

Lemma data_uri_truthy (d : string) :
  truthy (Some ("data:image/png;base64," +:+ d)) = true.
Proof. reflexivity. Qed.

Lemma audio_of_truthy (reply : Reply) (audio : string) :
  audio_of reply = Some audio -> truthy (Some audio) = true.
Proof.
  unfold audio_of. destruct reply as [response|e]; [|discriminate].
  destruct (truthy (first_audio response)) eqn:E; [|discriminate].
  intros H. rewrite H in E. exact E.
Qed.

(** The two promise chains, by what the reply carries. *)
Lemma diagram_settled_value (reply : Reply) (a : App) :
  diagram_settled reply a
  = match image_of reply with
    | Some d => setContent (with_imageUrl ("data:image/png;base64," +:+ d)) a
    | None => console_error
                [ConsoleError "Image generation failed" (diagram_error reply)] a
    end.
Proof.
  unfold diagram_settled, then_catch. rewrite generateDiagram_value.
  destruct (image_of reply) as [d|]; cbn [fst snd].
  - rewrite data_uri_truthy. unfold console_error, setContent. cbn.
    rewrite app_nil_r. reflexivity.
  - reflexivity.
Qed.

Lemma speech_settled_value (reply : Reply) (a : App) :
  speech_settled reply a
  = match audio_of reply with
    | Some audio => setContent (with_audioUrl audio) a
    | None => match reply with
              | Normal _ => a
              | Throw e => console_error
                             [ConsoleError "Speech generation failed" e] a
              end
    end.
Proof.
  unfold speech_settled, then_catch. rewrite generateSpeech_value.
  destruct reply as [response|e]; [|reflexivity].
  cbn [fst snd].
  assert (Hnil : console_error [] a = a).
  { unfold console_error. rewrite app_nil_r. destruct a; reflexivity. }
  rewrite Hnil.
  destruct (audio_of (Normal response)) as [audio|] eqn:E; [|reflexivity].
  rewrite (audio_of_truthy _ _ E). reflexivity.
Qed.

(** ** [handleProcess] *)

(** The state in which [handleProcess] waits for the explanation. *)
Lemma handleProcess_sends (a : App) :
  query a <> "" ->
  handleProcess a
  = send (generateExplanation_call (query a))
         (setContent (fun _ => None) (setError None (setAppState PROCESSING_TEXT a))).
Proof.
  intros Hq. unfold handleProcess.
  destruct (String.eqb_spec (query a) ""); [contradiction|reflexivity].
Qed.

Lemma delete_last {A} (l : list A) (x : A) : delete (length l) (l ++ [x]) = l.
Proof. induction l as [|y l IH]; cbn; [reflexivity|]. f_equal. exact IH. Qed.

Lemma lookup_last {A} (l : list A) (x : A) : (l ++ [x]) !! length l = Some x.
Proof. induction l as [|y l IH]; cbn; [reflexivity|exact IH]. Qed.

(** A click followed by the settlement of the call it issued. *)
Lemma process_settle (a : App) (reply : Reply) :
  query a <> "" ->
  run [Process; Settle (length (pending a)) reply] a
  = handleProcess_resume (generateExplanation reply)
      (setContent (fun _ => None) (setError None (setAppState PROCESSING_TEXT a))).
Proof.
  intros Hq. cbn [run foldl step]. rewrite (handleProcess_sends a Hq).
  cbn [send pending set_pending setContent setError setAppState].
  rewrite lookup_last. cbn [generateExplanation_call].
  rewrite delete_last. reflexivity.
Qed.

Lemma resume_unreadable (reply : Reply) (a : App) :
  unreadable reply = true ->
  exists e,
    handleProcess_resume (generateExplanation reply) a
    = setAppState ERROR
        (setError (Some "Failed to generate content. Please try again or check your API key.")
           (console_error [ConsoleErrorObject e]
              (console_error [ConsoleError "Explanation generation failed" e] a))).
Proof.
  unfold unreadable, handleProcess_resume, generateExplanation,
    GeminiService.try_catch, try_catch, await.
  destruct reply as [response|e]; cbn.
  - destruct (truthy (GeminiService.text response)); cbn.
    + destruct (JSON_parse_text response) as [v|e]; [discriminate|].
      intros _. exists e. reflexivity.
    + intros _. eexists. reflexivity.
  - intros _. exists e. reflexivity.
Qed.

Lemma resume_explained (r : GenerateContentResponse)
    (fields : gmap string JSValue) (e : string) (a : App) :
  truthy (GeminiService.text r) = true ->
  JSON_parse_text r = Normal (JObject fields) ->
  fields !! "explanation" = Some (JString e) ->
  handleProcess_resume (generateExplanation (Normal r)) a
  = send (generateSpeech_call (JString (string_slice e 0 800)))
      (send (generateDiagram_call (default JUndefined (fields !! "imagePrompt")))
         (setAppState COMPLETED
            (setContent
               (fun _ => Some {| text := JString e;
                                 spatialDescription :=
                                   default JUndefined (fields !! "spatialDescription");
                                 imageUrl := None; audioUrl := None |})
               (console_error [] a)))).
Proof.
  intros Htext Hparse Hexp.
  unfold handleProcess_resume, generateExplanation, GeminiService.try_catch,
    try_catch, await.
  cbn -[lookup]. rewrite Htext, Hparse.
  unfold mbind, Proc_bind, eval, modify, get_property. cbn [fst snd].
  rewrite Hexp. reflexivity.
Qed.

Lemma console_error_nil (a : App) : console_error [] a = a.
Proof. unfold console_error. rewrite app_nil_r. destruct a; reflexivity. Qed.

(** [slice(0, 800)] keeps the first 800 characters. *)
Lemma substring_take (n : nat) (s : string) :
  String.substring 0 (Nat.min n (String.length s)) s = first_chars n s.
Proof.
  unfold first_chars. revert n.
  induction s as [|c s IH]; intros [|n]; cbn; try reflexivity.
  f_equal. apply IH.
Qed.

Lemma string_slice_prefix (n : nat) (s : string) :
  string_slice s 0 (Z.of_nat n) = first_chars n s.
Proof.
  unfold string_slice, slice_range.
  destruct (Z.ltb_spec 0 0) as [?|_]; [lia|].
  destruct (Z.ltb_spec (Z.of_nat n) 0) as [?|_]; [lia|].
  rewrite Z.min_l by lia. cbn [Z.to_nat].
  rewrite Z.sub_0_r, <- Nat2Z.inj_min, Nat2Z.id.
  apply substring_take.
Qed.

(** ** The explanation stage *)

(** C3, as the code has it: when the explanation call is rejected, or its
    response text is empty or is not JSON, the pipeline aborts: the generic
    error is shown, the phase is ERROR, the result aggregate stays null and
    neither the diagram nor the speech call is issued. (A response that
    parses but lacks a field is not checked by the client.) *)
Theorem explanation_unreadable_aborts (a : App) (reply : Reply) :
  query a <> "" ->
  unreadable reply = true ->
  let a' := run [Process; Settle (length (pending a)) reply] a in
  appState a' = ERROR
  /\ error a' = Some "Failed to generate content. Please try again or check your API key."
  /\ content a' = None
  /\ pending a' = pending a.
Proof.
  intros Hq Hbad. cbv zeta. rewrite (process_settle a reply Hq).
  destruct (resume_unreadable reply
              (setContent (fun _ => None)
                 (setError None (setAppState PROCESSING_TEXT a))) Hbad)
    as [e ->].
  repeat split.
Qed.

Lemma explanation_unreadable_aborts_witness :
  let a := setQuery "Explain MoE routing" initial in
  let reply : Reply :=
    Normal {| GeminiService.text := Some "not json";
              JSON_parse_text := Throw SyntaxError;
              candidates := None |} in
  let a' := run [Process; Settle (length (pending a)) reply] a in
  appState a' = ERROR
  /\ error a' = Some "Failed to generate content. Please try again or check your API key."
  /\ content a' = None
  /\ pending a' = pending a.
Proof.
  apply (explanation_unreadable_aborts (setQuery "Explain MoE routing" initial));
    [discriminate | reflexivity].
Defined.

(** C3 as stated fails: a response that parses as JSON but has no
    [imagePrompt] completes the stage and its two texts are shown. *)
Lemma missing_imagePrompt_completes :
  let fields : gmap string JSValue :=
    <["explanation" := JString "# MoE"]>
      (<["spatialDescription" := JString "Flow starts top-left"]> ∅) in
  let a' := run [Process; Settle 0 (explained fields)]
                (setQuery "Explain MoE routing" initial) in
  fields !! "imagePrompt" = None
  /\ appState a' = COMPLETED
  /\ error a' = None
  /\ content a' = Some {| text := JString "# MoE";
                          spatialDescription := JString "Flow starts top-left";
                          imageUrl := None; audioUrl := None |}.
Proof. vm_compute. repeat split. Qed.

(** With [explanation] missing the phase does become ERROR, but only after
    the aggregate was filled and the diagram call issued. *)
Lemma missing_explanation_shows_content :
  let fields : gmap string JSValue :=
    <["imagePrompt" := JString "flowchart of router"]>
      (<["spatialDescription" := JString "Flow starts top-left"]> ∅) in
  let a' := run [Process; Settle 0 (explained fields)]
                (setQuery "Explain MoE routing" initial) in
  appState a' = ERROR
  /\ content a' = Some {| text := JUndefined;
                          spatialDescription := JString "Flow starts top-left";
                          imageUrl := None; audioUrl := None |}
  /\ pending a' = [generateDiagram_call (JString "flowchart of router")].
Proof. vm_compute. repeat split. Qed.

(** ** Completion and the late updates *)

Lemma diagram_settled_frame (reply : Reply) (a : App) :
  appState (diagram_settled reply a) = appState a
  /\ error (diagram_settled reply a) = error a
  /\ query (diagram_settled reply a) = query a
  /\ only_imageUrl_written (content a) (content (diagram_settled reply a)).
Proof.
  rewrite diagram_settled_value.
  destruct (image_of reply) as [d|]; cbn; repeat split;
    destruct (content a) as [c|]; cbn; eauto 6.
Qed.

Lemma speech_settled_frame (reply : Reply) (a : App) :
  appState (speech_settled reply a) = appState a
  /\ error (speech_settled reply a) = error a
  /\ query (speech_settled reply a) = query a
  /\ only_audioUrl_written (content a) (content (speech_settled reply a)).
Proof.
  rewrite speech_settled_value.
  destruct (audio_of reply) as [audio|]; [|destruct reply]; cbn; repeat split;
    destruct (content a) as [c|]; cbn; eauto 6.
Qed.

(** C4: once the explanation call answers with its three texts the phase is
    COMPLETED and the aggregate holds the two texts; when, later, the diagram
    or the speech call settles in any state [b], the phase, the error and the
    query are untouched and the aggregate changes in that call's own field
    only: a reply with an image sets [imageUrl] to its data URI, a reply with
    audio sets [audioUrl] to its payload, every other field keeps its value,
    and a reply without result or a null aggregate changes nothing. *)
Theorem completed_then_field_updates
    (a b : App) (r : GenerateContentResponse) (fields : gmap string JSValue)
    (explanation spatial prompt : string) (late : Reply) :
  query a <> "" ->
  truthy (GeminiService.text r) = true ->
  JSON_parse_text r = Normal (JObject fields) ->
  fields !! "explanation" = Some (JString explanation) ->
  fields !! "spatialDescription" = Some (JString spatial) ->
  fields !! "imagePrompt" = Some (JString prompt) ->
  let a' := run [Process; Settle (length (pending a)) (Normal r)] a in
  (appState a' = COMPLETED
   /\ content a' = Some {| text := JString explanation;
                           spatialDescription := JString spatial;
                           imageUrl := None; audioUrl := None |})
  /\ (appState (diagram_settled late b) = appState b
      /\ error (diagram_settled late b) = error b
      /\ only_imageUrl_written (content b) (content (diagram_settled late b)))
  /\ (appState (speech_settled late b) = appState b
      /\ error (speech_settled late b) = error b
      /\ only_audioUrl_written (content b) (content (speech_settled late b)))
  /\ content (diagram_settled late b)
     = match content b, image_of late with
       | Some c, Some d =>
           Some {| text := text c;
                   spatialDescription := spatialDescription c;
                   imageUrl := Some ("data:image/png;base64," +:+ d);
                   audioUrl := audioUrl c |}
       | prev, _ => prev
       end
  /\ content (speech_settled late b)
     = match content b, audio_of late with
       | Some c, Some audio =>
           Some {| text := text c;
                   spatialDescription := spatialDescription c;
                   imageUrl := imageUrl c;
                   audioUrl := Some audio |}
       | prev, _ => prev
       end.
Proof.
  intros Hq Htext Hparse Hexp Hsp Hip. cbv zeta.
  rewrite (process_settle a (Normal r) Hq).
  rewrite (resume_explained r fields explanation _ Htext Hparse Hexp).
  rewrite Hsp. split; [split; reflexivity|].
  destruct (diagram_settled_frame late b) as (H1 & H2 & _ & H3).
  destruct (speech_settled_frame late b) as (H4 & H5 & _ & H6).
  split; [auto|]. split; [auto|]. split.
  - rewrite diagram_settled_value.
    destruct (image_of late) as [d|]; cbn; destruct (content b); reflexivity.
  - rewrite speech_settled_value.
    destruct (audio_of late) as [audio|]; [|destruct late]; cbn;
      destruct (content b); reflexivity.
Qed.

Lemma completed_then_field_updates_witness :
  let a' := run [Process; Settle (length (pending asked)) (Normal scenario_response)]
                asked in
  (appState a' = COMPLETED
   /\ content a' = Some {| text := JString "# MoE";
                           spatialDescription := JString "Flow starts top-left";
                           imageUrl := None; audioUrl := None |})
  /\ (appState (diagram_settled (inline_reply "iVBORw0KGgo=") answered)
      = appState answered
      /\ error (diagram_settled (inline_reply "iVBORw0KGgo=") answered)
         = error answered
      /\ only_imageUrl_written (content answered)
           (content (diagram_settled (inline_reply "iVBORw0KGgo=") answered)))
  /\ (appState (speech_settled (inline_reply "iVBORw0KGgo=") answered)
      = appState answered
      /\ error (speech_settled (inline_reply "iVBORw0KGgo=") answered)
         = error answered
      /\ only_audioUrl_written (content answered)
           (content (speech_settled (inline_reply "iVBORw0KGgo=") answered)))
  /\ content (diagram_settled (inline_reply "iVBORw0KGgo=") answered)
     = Some {| text := JString "# MoE";
               spatialDescription := JString "Flow starts top-left";
               imageUrl := Some "data:image/png;base64,iVBORw0KGgo=";
               audioUrl := None |}
  /\ content (speech_settled (inline_reply "iVBORw0KGgo=") answered)
     = Some {| text := JString "# MoE";
               spatialDescription := JString "Flow starts top-left";
               imageUrl := None;
               audioUrl := Some "iVBORw0KGgo=" |}.
Proof.
  apply (completed_then_field_updates asked answered scenario_response
           scenario_fields "# MoE" "Flow starts top-left" "flowchart of router"
           (inline_reply "iVBORw0KGgo="));
    [discriminate | reflexivity ..].
Defined.

(** C5: when the diagram call yields no image, or the speech call no audio,
    nothing happens but the logging done by the service: the aggregate (so
    the unset field and the two texts), the error shown and the phase are
    what they were. *)
Theorem late_failure_only_logged (a : App) (diagram speech : Reply) :
  image_of diagram = None ->
  audio_of speech = None ->
  (diagram_settled diagram a
   = console_error [ConsoleError "Image generation failed" (diagram_error diagram)] a
   /\ content (diagram_settled diagram a) = content a
   /\ error (diagram_settled diagram a) = error a
   /\ appState (diagram_settled diagram a) = appState a)
  /\ (speech_settled speech a
      = console_error match speech with
                      | Throw e => [ConsoleError "Speech generation failed" e]
                      | Normal _ => []
                      end a
      /\ content (speech_settled speech a) = content a
      /\ error (speech_settled speech a) = error a
      /\ appState (speech_settled speech a) = appState a).
Proof.
  intros Himg Haud.
  rewrite diagram_settled_value, speech_settled_value, Himg, Haud.
  split; [repeat split|].
  destruct speech as [response|e]; [|repeat split].
  rewrite console_error_nil. repeat split.
Qed.

Lemma late_failure_only_logged_witness :
  (diagram_settled (Throw RequestFailed) answered
   = console_error [ConsoleError "Image generation failed"
                      (diagram_error (Throw RequestFailed))] answered
   /\ content (diagram_settled (Throw RequestFailed) answered) = content answered
   /\ error (diagram_settled (Throw RequestFailed) answered) = error answered
   /\ appState (diagram_settled (Throw RequestFailed) answered) = appState answered)
  /\ (speech_settled (Throw RequestFailed) answered
      = console_error [ConsoleError "Speech generation failed" RequestFailed] answered
      /\ content (speech_settled (Throw RequestFailed) answered) = content answered
      /\ error (speech_settled (Throw RequestFailed) answered) = error answered
      /\ appState (speech_settled (Throw RequestFailed) answered) = appState answered).
Proof.
  apply (late_failure_only_logged answered (Throw RequestFailed) (Throw RequestFailed));
    reflexivity.
Defined.

(** ** The services never reject *)

(** C10: whatever the reply, [generateDiagram] fulfils (with the empty string
    when there is no image) and [generateSpeech] fulfils (with null when the
    call is rejected or there is no audio); so the [.catch] handlers of the
    pipeline never run: the console gains only the lines of the services
    themselves. *)
Theorem services_never_reject (reply : Reply) (a : App) :
  generateDiagram reply
  = match image_of reply with
    | Some d => ([], Normal ("data:image/png;base64," +:+ d))
    | None => ([ConsoleError "Image generation failed" (diagram_error reply)],
               Normal "")
    end
  /\ generateSpeech reply
     = match reply with
       | Normal _ => ([], Normal (audio_of reply))
       | Throw e => ([ConsoleError "Speech generation failed" e], Normal None)
       end
  /\ (forall e, snd (generateDiagram reply) <> Throw e)
  /\ (forall e, snd (generateSpeech reply) <> Throw e)
  /\ console (diagram_settled reply a) = console a ++ fst (generateDiagram reply)
  /\ console (speech_settled reply a) = console a ++ fst (generateSpeech reply).
Proof.
  split; [apply generateDiagram_value|].
  split; [apply generateSpeech_value|].
  split; [intros e; rewrite generateDiagram_value;
          destruct (image_of reply); discriminate|].
  split; [intros e; rewrite generateSpeech_value;
          destruct reply; discriminate|].
  split.
  - rewrite diagram_settled_value, generateDiagram_value.
    destruct (image_of reply); cbn; [rewrite app_nil_r|]; reflexivity.
  - rewrite speech_settled_value, generateSpeech_value.
    destruct reply as [response|e]; cbn [fst snd].
    + rewrite app_nil_r. destruct (audio_of (Normal response)); reflexivity.
    + reflexivity.
Qed.

(** ** What every run preserves *)

Lemma string_of_list_ascii_length (l : list ascii) :
  String.length (string_of_list_ascii l) = length l.
Proof. induction l as [|c l IH]; cbn; [reflexivity|]. f_equal. exact IH. Qed.

Lemma first_chars_length (n : nat) (s : string) :
  (String.length (first_chars n s) <= n)%nat.
Proof.
  unfold first_chars. rewrite string_of_list_ascii_length, length_take. lia.
Qed.

Lemma call_slice_ok (v sliced : JSValue) :
  call_slice v 0 800 = Normal sliced ->
  speech_request_ok (generateSpeech_call sliced).
Proof.
  intros Hs. cbn. repeat split. intros s ->.
  destruct v; try discriminate Hs.
  injection Hs as Hs.
  change 800 with (Z.of_nat 800) in Hs. rewrite string_slice_prefix in Hs.
  subst s. apply first_chars_length.
Qed.

(** All [handleProcess_resume] can do to the calls in flight and to the
    aggregate. *)
Lemma resume_effects (s : Settled JSValue) (a : App) :
  exists extra,
    pending (handleProcess_resume s a) = pending a ++ extra
    /\ Forall speech_request_ok extra
    /\ (content (handleProcess_resume s a) = content a
        \/ exists t sd, content (handleProcess_resume s a)
                        = Some {| text := t; spatialDescription := sd;
                                  imageUrl := None; audioUrl := None |}).
Proof.
  destruct s as [log [v|e]];
    unfold handleProcess_resume, try_catch, await, mbind, Proc_bind, eval, modify;
    cbn [fst snd].
  2: { exists []. rewrite app_nil_r. repeat split; [constructor|left; reflexivity]. }
  destruct (get_property v "explanation") as [x|e1];
    [|exists []; rewrite app_nil_r;
      repeat split; [constructor|left; reflexivity]].
  destruct (get_property v "spatialDescription") as [sd|e2];
    [|exists []; rewrite app_nil_r;
      repeat split; [constructor|left; reflexivity]].
  destruct (get_property v "imagePrompt") as [ip|e3].
  2: { exists []. rewrite app_nil_r.
       repeat split; [constructor|right; eexists _, _; reflexivity]. }
  destruct (call_slice x 0 800) as [sliced|e4] eqn:Hslice.
  - exists [generateDiagram_call ip; generateSpeech_call sliced].
    split; [cbn; rewrite <- app_assoc; reflexivity|].
    split; [|right; eexists _, _; reflexivity].
    constructor; [exact I|]. constructor; [|constructor].
    exact (call_slice_ok x sliced Hslice).
  - exists [generateDiagram_call ip].
    split; [reflexivity|].
    split; [repeat constructor|right; eexists _, _; reflexivity].
Qed.

Lemma run_invariant (Inv : App -> Prop) :
  (forall a e, Inv a -> Inv (step a e)) ->
  forall es a, Inv a -> Inv (run es a).
Proof.
  intros Hstep es. induction es as [|e es IH]; intros a Ha; [exact Ha|].
  cbn [run foldl]. apply IH, Hstep, Ha.
Qed.

Lemma step_speech_requests (a : App) (e : Event) :
  Forall speech_request_ok (pending a) ->
  Forall speech_request_ok (pending (step a e)).
Proof.
  intros Ha. destruct e as [|i reply|q st err]; cbn [step].
  - unfold handleProcess. destruct (String.eqb (query a) ""); [exact Ha|].
    cbn. apply Forall_app. split; [exact Ha|repeat constructor].
  - destruct (pending a !! i) as [request|] eqn:Hi; [|exact Ha].
    assert (Hdel : Forall speech_request_ok (delete i (pending a))).
    { apply Forall_delete, Ha. }
    destruct request.
    + destruct (resume_effects (generateExplanation reply)
                  (set_pending (delete i (pending a)) a))
        as (extra & -> & Hextra & _).
      apply Forall_app. split; [exact Hdel|exact Hextra].
    + rewrite diagram_settled_value.
      destruct (image_of reply); exact Hdel.
    + rewrite speech_settled_value.
      destruct (audio_of reply); [|destruct reply]; exact Hdel.
  - exact Ha.
Qed.

Lemma step_urls_nonempty (a : App) (e : Event) :
  urls_nonempty (content a) -> urls_nonempty (content (step a e)).
Proof.
  intros Ha. destruct e as [|i reply|q st err]; cbn [step].
  - unfold handleProcess. destruct (String.eqb (query a) ""); [exact Ha|exact I].
  - destruct (pending a !! i) as [request|]; [|exact Ha].
    destruct request.
    + destruct (resume_effects (generateExplanation reply)
                  (set_pending (delete i (pending a)) a))
        as (_ & _ & _ & [-> | (t & sd & ->)]); [exact Ha|].
      split; discriminate.
    + rewrite diagram_settled_value.
      destruct (image_of reply) as [d|]; [|exact Ha]. cbn.
      destruct (content a) as [c|]; [|exact I]. cbn in *.
      split; [discriminate|apply Ha].
    + rewrite speech_settled_value.
      destruct (audio_of reply) as [audio|] eqn:Haudio;
        [|destruct reply; exact Ha].
      cbn. destruct (content a) as [c|]; [|exact I]. cbn in *.
      split; [apply Ha|]. intros [= ->].
      apply audio_of_truthy in Haudio. discriminate Haudio.
  - exact Ha.
Qed.

(** C8: when the explanation arrives with its text, the speech call is
    issued with the first 800 characters of that text, the voice Fenrir and
    audio as the only response modality; and in every run each speech call in
    flight has this voice and modality and at most 800 characters. *)
Theorem speech_call_input
    (a : App) (r : GenerateContentResponse) (fields : gmap string JSValue)
    (explanation : string) (es : list Event) :
  query a <> "" ->
  truthy (GeminiService.text r) = true ->
  JSON_parse_text r = Normal (JObject fields) ->
  fields !! "explanation" = Some (JString explanation) ->
  pending (run [Process; Settle (length (pending a)) (Normal r)] a)
  = pending a
    ++ [generateDiagram_call (default JUndefined (fields !! "imagePrompt"));
        SpeechRequest "gemini-2.5-flash-preview-tts"
          (JString (first_chars 800 explanation)) [AUDIO] "Fenrir"]
  /\ Forall speech_request_ok (pending (run es initial)).
Proof.
  intros Hq Htext Hparse Hexp. split.
  - rewrite (process_settle a (Normal r) Hq).
    rewrite (resume_explained r fields explanation _ Htext Hparse Hexp).
    change 800 with (Z.of_nat 800). rewrite string_slice_prefix.
    cbn. rewrite <- app_assoc. reflexivity.
  - apply (run_invariant (fun a => Forall speech_request_ok (pending a))).
    + apply step_speech_requests.
    + constructor.
Qed.

Lemma speech_call_input_witness :
  pending (run [Process; Settle (length (pending asked)) (Normal scenario_response)]
               asked)
  = pending asked
    ++ [generateDiagram_call
          (default JUndefined (scenario_fields !! "imagePrompt"));
        SpeechRequest "gemini-2.5-flash-preview-tts"
          (JString (first_chars 800 "# MoE")) [AUDIO] "Fenrir"]
  /\ Forall speech_request_ok (pending (run scenario initial)).
Proof.
  apply (speech_call_input asked scenario_response scenario_fields "# MoE" scenario);
    [discriminate | reflexivity ..].
Defined.

(** C9: a diagram or speech result that arrives when the aggregate is null
    leaves it null; and in every run the image and audio fields of the
    aggregate are unset or hold a non-empty string. *)
Theorem late_results_preserve_absence (a : App) (reply : Reply) (es : list Event) :
  content a = None ->
  content (diagram_settled reply a) = None
  /\ content (speech_settled reply a) = None
  /\ urls_nonempty (content (run es initial)).
Proof.
  intros Hnull. split; [|split].
  - rewrite diagram_settled_value.
    destruct (image_of reply); cbn; rewrite Hnull; reflexivity.
  - rewrite speech_settled_value.
    destruct (audio_of reply); [|destruct reply]; cbn; rewrite Hnull; reflexivity.
  - apply (run_invariant (fun a => urls_nonempty (content a))).
    + apply step_urls_nonempty.
    + exact I.
Qed.

Lemma late_results_preserve_absence_witness :
  content (diagram_settled (inline_reply "iVBORw0KGgo=") (handleProcess answered)) = None
  /\ content (speech_settled (inline_reply "iVBORw0KGgo=") (handleProcess answered)) = None
  /\ urls_nonempty (content (run scenario initial)).
Proof.
  apply (late_results_preserve_absence (handleProcess answered)
           (inline_reply "iVBORw0KGgo=") scenario).
  reflexivity.
Defined.

(** The scenario of the specification, start to end. *)
Example scenario_result :
  appState (run scenario initial) = COMPLETED
  /\ error (run scenario initial) = None
  /\ content (run scenario initial)
     = Some {| text := JString "# MoE";
               spatialDescription := JString "Flow starts top-left";
               imageUrl := Some "data:image/png;base64,iVBORw0KGgo=";
               audioUrl := Some "/38AgA==" |}
  /\ pending (run scenario initial) = [].
Proof. vm_compute. repeat split. Qed.

End PipelineFacts.

(** * Further properties of the audio player *)

Module AudioPlayerMore.
Import AudioPlayer AudioPlayerFacts.

(** ** Malformed payloads *)

Lemma strip_padding_keeps (c : ascii) (data : list ascii) :
  is_equals c = false -> In c data -> In c (strip_padding data).
Proof.
  intros Hc Hin. unfold strip_padding.
  destruct (length data mod 4 =? 0)%nat; [|exact Hin].
  apply in_rev in Hin.
  destruct (rev data) as [|c1 [|c2 r]] eqn:Hrev;
    try (apply in_rev; rewrite Hrev; exact Hin).
  destruct (is_equals c1) eqn:H1;
    [|apply in_rev; rewrite Hrev; exact Hin].
  destruct Hin as [<-|Hin]; [congruence|].
  destruct (is_equals c2) eqn:H2.
  - destruct Hin as [<-|Hin]; [congruence|]. apply in_rev in Hin. exact Hin.
  - apply in_rev in Hin. exact Hin.
Qed.

Lemma sextets_rejects (c : ascii) (data : list ascii) :
  base64_index c = None -> In c data -> sextets data = None.
Proof.
  intros Hc. induction data as [|d data IH]; intros Hin; [destruct Hin|].
  cbn [sextets]. destruct Hin as [->|Hin].
  - rewrite Hc. reflexivity.
  - rewrite (IH Hin). destruct (base64_index d); reflexivity.
Qed.

Lemma atob_rejects (payload : string) (c : ascii) :
  In c (list_ascii_of_string payload) ->
  not_base64 c ->
  atob payload = Throw InvalidCharacterError.
Proof.
  intros Hin (Hws & Heq & Hidx). unfold atob.
  set (data := strip_padding _).
  assert (Hdata : In c data).
  { apply strip_padding_keeps; [exact Heq|].
    apply list_elem_of_In, list_elem_of_filter. split; [exact Hws|].
    apply list_elem_of_In, Hin. }
  destruct (length data mod 4 =? 1)%nat; [reflexivity|].
  rewrite (sextets_rejects c data Hidx Hdata). reflexivity.
Qed.

(** What [decodeAudio] does when the body throws before a buffer exists. *)
Lemma decodeAudio_throw (P : Platform) (payload : string) (p : Player) (e : JSError) :
  decode_samples P payload = Throw e ->
  hasError (decodeAudio P payload p) = true
  /\ audioBufferRef (decodeAudio P payload p) = audioBufferRef p
  /\ isPlaying (decodeAudio P payload p) = isPlaying p
  /\ exists e', console (decodeAudio P payload p)
                = console p ++ [ConsoleError "Error decoding audio" e'].
Proof.
  intros Hdec. unfold decodeAudio, ensure_context.
  destruct (audioContextRef p) as [ctx|].
  - rewrite Hdec. cbn. eauto.
  - destruct (newAudioContext P) as [ctx|e0];
      cbn [mbind completion_bind mret completion_ret];
      [rewrite Hdec|]; cbn; eauto.
Qed.

(** X1: a payload holding any character that is neither whitespace, nor [=],
    nor in the base64 alphabet cannot be decoded: the player is flagged
    unavailable with one console line, no buffer is stored, and mounting with
    autoplay on a player without buffer starts nothing. *)
Theorem invalid_base64_unavailable
    (P : Platform) (payload : string) (c : ascii) (p : Player) :
  In c (list_ascii_of_string payload) ->
  not_base64 c ->
  audioBufferRef p = None ->
  let p' := decodeAudio P payload p in
  hasError p' = true
  /\ audioBufferRef p' = None
  /\ (exists e, console p' = console p ++ [ConsoleError "Error decoding audio" e])
  /\ mount P payload true p = p'.
Proof.
  intros Hin Hbad Hnone. cbv zeta.
  assert (Hdec : decode_samples P payload = Throw InvalidCharacterError).
  { unfold decode_samples. rewrite (atob_rejects payload c Hin Hbad). reflexivity. }
  destruct (decodeAudio_throw P payload p _ Hdec) as (Herr & Hbuf & _ & Hlog).
  rewrite Hbuf, Hnone. repeat split; try assumption.
  unfold mount, play. rewrite Hbuf, Hnone. reflexivity.
Qed.

Lemma invalid_base64_unavailable_witness :
  let p' := decodeAudio browser "AA!A" mounted in
  hasError p' = true
  /\ audioBufferRef p' = None
  /\ (exists e, console p' = console mounted ++ [ConsoleError "Error decoding audio" e])
  /\ mount browser "AA!A" true mounted = p'.
Proof.
  apply (invalid_base64_unavailable browser "AA!A" "!"%char mounted);
    [right; right; left; reflexivity | repeat split | reflexivity].
Defined.

(** ** What decoding leaves alone *)

(** X2: [decodeAudio] never touches the playback state (playing flag, node,
    start reference, offset) and never clears [hasError]; it either stores a
    buffer and writes nothing to the console, or keeps the old buffer, sets
    [hasError] and writes one line. An existing context is reused. *)
Theorem decodeAudio_frame (P : Platform) (payload : string) (p : Player) :
  let p' := decodeAudio P payload p in
  (isPlaying p' = isPlaying p /\ sourceRef p' = sourceRef p
   /\ startTimeRef p' = startTimeRef p /\ pauseTimeRef p' = pauseTimeRef p)
  /\ (audioContextRef p' = audioContextRef p
      \/ audioContextRef p = None)
  /\ ((hasError p' = hasError p /\ console p' = console p
       /\ exists audioBuffer, audioBufferRef p' = Some audioBuffer)
      \/ (hasError p' = true /\ audioBufferRef p' = audioBufferRef p
          /\ exists e, console p' = console p ++ [ConsoleError "Error decoding audio" e])).
Proof.
  cbv zeta. unfold decodeAudio, ensure_context.
  destruct (audioContextRef p) as [ctx|] eqn:Hctx.
  - destruct (decode_samples P payload) as [buf|e]; cbn; rewrite ?Hctx;
      (split; [repeat split|]); (split; [left; reflexivity|]);
      [left|right]; eauto.
  - destruct (newAudioContext P) as [ctx|e0];
      cbn [mbind completion_bind mret completion_ret].
    + destruct (decode_samples P payload) as [buf|e]; cbn;
        (split; [repeat split|]); (split; [right; reflexivity|]);
        [left|right]; eauto.
    + cbn. split; [repeat split|]. split; [right; reflexivity|]. right. eauto.
Qed.

(** X3: without an audio context, and with none to be had from the platform,
    decoding fails whatever the payload: the player is flagged unavailable
    and no context and no buffer are stored. *)
Theorem decodeAudio_without_context (P : Platform) (payload : string) (p : Player) :
  context_available P p = false ->
  hasError (decodeAudio P payload p) = true
  /\ audioContextRef (decodeAudio P payload p) = None
  /\ audioBufferRef (decodeAudio P payload p) = audioBufferRef p.
Proof.
  unfold context_available, decodeAudio, ensure_context.
  destruct (audioContextRef p) as [ctx|] eqn:Hctx; [discriminate|].
  destruct (newAudioContext P) as [ctx|e]; [discriminate|].
  intros _. cbn. rewrite Hctx. repeat split.
Qed.

Lemma decodeAudio_without_context_witness :
  let P := {| newAudioContext := Throw NotSupportedError;
              createBuffer_accepts := fun _ _ _ => true |} in
  hasError (decodeAudio P "/38AgA==" mounted) = true
  /\ audioContextRef (decodeAudio P "/38AgA==" mounted) = None
  /\ audioBufferRef (decodeAudio P "/38AgA==" mounted) = audioBufferRef mounted.
Proof.
  apply (decodeAudio_without_context
           {| newAudioContext := Throw NotSupportedError;
              createBuffer_accepts := fun _ _ _ => true |} "/38AgA==" mounted).
  reflexivity.
Defined.

(** ** The decoded samples *)

Lemma pcm_sample_range (pcm : string) (i : nat) :
  -32768 <= pcm_sample pcm i <= 32767.
Proof.
  unfold pcm_sample.
  pose proof (charCodeAt_range pcm (2 * i)).
  pose proof (charCodeAt_range pcm (2 * i + 1)).
  destruct (Z.ltb_spec (charCodeAt pcm (2 * i) + 256 * charCodeAt pcm (2 * i + 1)) 32768);
    lia.
Qed.

Lemma decodeAudio_even_buffer (P : Platform) (payload pcm : string) (p : Player) :
  atob payload = Normal pcm ->
  Nat.even (String.length pcm) = true ->
  context_available P p = true ->
  createBuffer_accepts P 1 (String.length pcm / 2) 24000 = true ->
  audioBufferRef (decodeAudio P payload p)
  = Some {| numberOfChannels := 1;
            bufferLength := String.length pcm / 2;
            sampleRate := 24000;
            channelData := map (fun i => Qmake (pcm_sample pcm i) 32768)
                               (seq 0 (String.length pcm / 2)) |}
  /\ hasError (decodeAudio P payload p) = hasError p
  /\ pauseTimeRef (decodeAudio P payload p) = pauseTimeRef p
  /\ audioContextRef (decodeAudio P payload p) <> None.
Proof.
  intros Hatob Heven Hctx Hacc.
  pose proof (decode_samples_even P payload pcm Hatob Heven Hacc) as Hdec.
  unfold decodeAudio, ensure_context, context_available in *.
  destruct (audioContextRef p) as [ctx|] eqn:Hc.
  - rewrite Hdec. cbn. rewrite Hc. repeat split. discriminate.
  - destruct (newAudioContext P) as [ctx|e]; [|discriminate].
    cbn [mbind completion_bind mret completion_ret]. rewrite Hdec.
    cbn. repeat split. discriminate.
Qed.

(** X4: every sample of a decoded buffer lies in [-1, 1): the mono channel is
    normalised, and the value 1 itself is never produced. *)
Theorem decoded_samples_normalised
    (P : Platform) (payload pcm : string) (p : Player) (audioBuffer : AudioBuffer) :
  atob payload = Normal pcm ->
  Nat.even (String.length pcm) = true ->
  context_available P p = true ->
  createBuffer_accepts P 1 (String.length pcm / 2) 24000 = true ->
  audioBufferRef (decodeAudio P payload p) = Some audioBuffer ->
  numberOfChannels audioBuffer = 1%nat
  /\ sampleRate audioBuffer = 24000
  /\ Forall (fun q => (-1 <= q)%Q /\ (q < 1)%Q) (channelData audioBuffer).
Proof.
  intros Hatob Heven Hctx Hacc Hbuf.
  destruct (decodeAudio_even_buffer P payload pcm p Hatob Heven Hctx Hacc)
    as (Heq & _).
  rewrite Heq in Hbuf. injection Hbuf as <-. cbn.
  split; [reflexivity|]. split; [reflexivity|].
  apply Forall_forall. intros q Hq. apply list_elem_of_In, in_map_iff in Hq.
  destruct Hq as (i & <- & _).
  pose proof (pcm_sample_range pcm i).
  unfold Qle, Qlt. cbn. lia.
Qed.

Lemma decoded_samples_normalised_witness :
  exists audioBuffer,
    audioBufferRef (decodeAudio browser "/38AgA==" mounted) = Some audioBuffer
    /\ numberOfChannels audioBuffer = 1%nat
    /\ sampleRate audioBuffer = 24000
    /\ Forall (fun q => (-1 <= q)%Q /\ (q < 1)%Q) (channelData audioBuffer).
Proof.
  eexists. split; [reflexivity|].
  apply (decoded_samples_normalised browser "/38AgA=="
           (binary_string [255; 127; 0; 128]) mounted); reflexivity.
Defined.

(** ** Offsets along a run *)







(** ** The toggle button and double calls *)



Lemma pause_not_playing (p : Player) : isPlaying p = false -> pause p = p.
Proof. intros Hp. unfold pause. rewrite Hp. destruct (sourceRef p); reflexivity. Qed.

Lemma pause_cases (p : Player) : pause p = p \/ isPlaying (pause p) = false.
Proof.
  unfold pause. destruct (sourceRef p) as [node|]; [|left; reflexivity].
  destruct (isPlaying p); [|left; reflexivity].
  destruct (node_stop node); [right|left; reflexivity].
  cbn. destruct (audioContextRef p); reflexivity.
Qed.

(** X7: [pause()] twice is [pause()] once, from any state; in particular it
    does nothing at all while not playing, and the offset stored by the
    first call is not overwritten by the second. *)
Theorem pause_idempotent (p : Player) :
  pause (pause p) = pause p
  /\ pause (setIsPlaying false p) = setIsPlaying false p.
Proof.
  split.
  - destruct (pause_cases p) as [Heq|Hp].
    + rewrite Heq. exact Heq.
    + apply pause_not_playing, Hp.
  - apply pause_not_playing. reflexivity.
Qed.

(** ** Mounting and unmounting *)



(** X9: the cleanup leaves the player stopped at offset 0 with its context,
    if it has one, closed; run a second time it changes nothing, so the
    context is closed once. The buffer and the error flag are kept. *)
Theorem cleanup_idempotent (p : Player) :
  cleanup (cleanup p) = cleanup p
  /\ isPlaying (cleanup p) = false
  /\ pauseTimeRef (cleanup p) = 0
  /\ (state <$> audioContextRef (cleanup p)) = ((fun _ => Closed) <$> audioContextRef p)
  /\ audioBufferRef (cleanup p) = audioBufferRef p
  /\ hasError (cleanup p) = hasError p.
Proof.
  destruct p as [ip he [[st t]|] [[b c sta sto one]|] ab stt pt co];
    try destruct sta; destruct st || idtac; repeat split.
Qed.

End AudioPlayerMore.

(** * Further properties of the services and of the pipeline *)

Module PipelineMore.
Import GeminiService App PipelineFacts.

(** ** Which part of a response is read *)

Lemma first_image_skips (ps1 ps2 : list Part) (part : Part)
    (inline : InlineData) (d : string) :
  Forall dataless ps1 ->
  inlineData part = Some inline ->
  data inline = Some d ->
  d <> "" ->
  first_image (ps1 ++ part :: ps2) = Some d.
Proof.
  intros Hps Hin Hd Hne. induction Hps as [|p0 ps1 Hp0 _ IH]; cbn [app first_image].
  - rewrite Hin, Hd. cbn. destruct (String.eqb_spec d ""); [contradiction|reflexivity].
  - unfold dataless in Hp0. destruct (inlineData p0) as [i0|]; [|exact IH].
    rewrite Hp0. exact IH.
Qed.

(** X10: the diagram is the first part of the first candidate that carries
    inline data, whatever dataless parts (text, empty data) precede it and
    whatever follows; it is labelled as PNG whatever media type the part
    declares, and nothing is logged. *)
Theorem diagram_takes_first_image
    (r : GenerateContentResponse) (ps1 ps2 : list Part) (part : Part)
    (inline : InlineData) (d : string) :
  first_parts r = Some (ps1 ++ part :: ps2) ->
  Forall dataless ps1 ->
  inlineData part = Some inline ->
  data inline = Some d ->
  d <> "" ->
  generateDiagram (Normal r) = ([], Normal ("data:image/png;base64," +:+ d)).
Proof.
  intros Hparts Hps Hin Hd Hne.
  rewrite generateDiagram_value. unfold image_of. rewrite Hparts. cbn [mbind option_bind].
  rewrite (first_image_skips ps1 ps2 part inline d Hps Hin Hd Hne). reflexivity.
Qed.

Lemma diagram_takes_first_image_witness :
  generateDiagram
    (Normal (response_with_parts [text_part; data_part "image/jpeg" "iVBORw0KGgo="]))
  = ([], Normal ("data:image/png;base64," +:+ "iVBORw0KGgo=")).
Proof.
  eapply (diagram_takes_first_image _ [text_part] []);
    [reflexivity | repeat constructor | reflexivity | reflexivity | discriminate].
Defined.

(** X11: the speech call reads the first part only: when that part has no
    inline data the result is null, silently, whatever the later parts
    carry. *)
Theorem speech_reads_first_part_only
    (r : GenerateContentResponse) (part : Part) (rest : list Part) :
  first_parts r = Some (part :: rest) ->
  dataless part ->
  generateSpeech (Normal r) = ([], Normal None).
Proof.
  intros Hparts Hpart. rewrite generateSpeech_value. unfold audio_of, first_audio.
  rewrite Hparts. cbn [mbind option_bind head]. unfold dataless in Hpart.
  destruct (inlineData part) as [inline|]; cbn [mbind option_bind]; [|reflexivity].
  destruct (data inline) as [d|]; [|reflexivity].
  rewrite Hpart. reflexivity.
Qed.

Lemma speech_reads_first_part_only_witness :
  generateSpeech
    (Normal (response_with_parts [text_part; data_part "audio/L16" "/38AgA=="]))
  = ([], Normal None).
Proof.
  eapply (speech_reads_first_part_only _ text_part);
    [reflexivity | exact I].
Defined.

(** X12: [generateExplanation] fulfils exactly when the reply is readable,
    with the parsed value and an untouched console; otherwise it writes one
    line and rejects with the very error it caught (the rejection of the
    call, the SyntaxError of [JSON.parse], or its own empty-text error). *)
Theorem generateExplanation_outcome (reply : Reply) :
  match generateExplanation reply with
  | (lines, Normal v) =>
      unreadable reply = false /\ lines = []
      /\ exists r, reply = Normal r /\ JSON_parse_text r = Normal v
  | (lines, Throw e) =>
      unreadable reply = true
      /\ lines = [ConsoleError "Explanation generation failed" e]
      /\ match reply with
         | Throw e0 => e = e0
         | Normal r =>
             if truthy (GeminiService.text r) then JSON_parse_text r = Throw e
             else e = Error "Empty response text from Gemini."
         end
  end.
Proof.
  unfold generateExplanation, GeminiService.try_catch, unreadable.
  destruct reply as [r|e0]; cbn; [|auto].
  destruct (truthy (GeminiService.text r)) eqn:Ht; cbn; [|rewrite ?Ht; auto].
  destruct (JSON_parse_text r) as [v|e] eqn:Hp; cbn; rewrite ?Ht; eauto.
Qed.

(** ** Late results in either order *)

(** X13: the diagram and the speech result can arrive in either order: the
    aggregate, the phase, the error, the query and the calls in flight end up
    the same; only the order of console lines may differ. *)
Theorem late_results_commute (diagram speech : Reply) (a : App) :
  let ds := speech_settled speech (diagram_settled diagram a) in
  let sd := diagram_settled diagram (speech_settled speech a) in
  content ds = content sd /\ appState ds = appState sd /\ error ds = error sd
  /\ query ds = query sd /\ pending ds = pending sd.
Proof.
  cbv zeta. rewrite !diagram_settled_value, !speech_settled_value.
  destruct (image_of diagram) as [d|]; destruct (audio_of speech) as [au|];
    try destruct speech as [r|e]; cbn; destruct (content a) as [c|]; cbn;
    repeat split.
Qed.

(** X14: per field the last writer wins: a second image replaces the first,
    and the aggregate is then as if only the second had arrived. *)
Theorem second_image_replaces_first (first second : Reply) (d : string) (a : App) :
  image_of second = Some d ->
  content (diagram_settled second (diagram_settled first a))
  = content (diagram_settled second a)
  /\ (imageUrl <$> content (diagram_settled second a))
     = ((fun _ => Some ("data:image/png;base64," +:+ d)) <$> content a).
Proof.
  intros Hd. rewrite !diagram_settled_value, Hd.
  destruct (image_of first) as [d1|]; cbn; destruct (content a) as [c|]; cbn;
    repeat split.
Qed.

Lemma second_image_replaces_first_witness :
  content (diagram_settled (inline_reply "BBBB") (diagram_settled (inline_reply "AAAA") answered))
  = content (diagram_settled (inline_reply "BBBB") answered)
  /\ (imageUrl <$> content (diagram_settled (inline_reply "BBBB") answered))
     = ((fun _ => Some ("data:image/png;base64," +:+ "BBBB")) <$> content answered).
Proof.
  apply (second_image_replaces_first (inline_reply "AAAA") (inline_reply "BBBB") "BBBB" answered).
  reflexivity.
Defined.

(** ** A result of an earlier query *)

Lemma run_app (es1 es2 : list App.Event) (a : App) :
  App.run (es1 ++ es2) a = App.run es2 (App.run es1 a).
Proof. unfold App.run. apply foldl_app. Qed.

(** X15: results carry no mark of the query they belong to. When a second
    query is asked and answered while the diagram call of the first is still
    in flight, the late image of the first query is attached to the answer of
    the second. *)
Theorem earlier_image_attaches_to_later_answer
    (a : App) (r1 r2 : GenerateContentResponse)
    (fields1 fields2 : gmap string JSValue) (e1 e2 d : string) (late : Reply) :
  query a <> "" ->
  pending a = [] ->
  truthy (GeminiService.text r1) = true ->
  JSON_parse_text r1 = Normal (JObject fields1) ->
  fields1 !! "explanation" = Some (JString e1) ->
  truthy (GeminiService.text r2) = true ->
  JSON_parse_text r2 = Normal (JObject fields2) ->
  fields2 !! "explanation" = Some (JString e2) ->
  image_of late = Some d ->
  let a' := App.run [App.Process; App.Settle 0 (Normal r1);
                     App.Process; App.Settle 2 (Normal r2);
                     App.Settle 0 late] a in
  pending (App.run [App.Process; App.Settle 0 (Normal r1); App.Process;
                    App.Settle 2 (Normal r2)] a) !! 0%nat
  = Some (generateDiagram_call (default JUndefined (fields1 !! "imagePrompt")))
  /\ content a'
     = Some {| text := JString e2;
               spatialDescription := default JUndefined (fields2 !! "spatialDescription");
               imageUrl := Some ("data:image/png;base64," +:+ d);
               audioUrl := None |}
  /\ appState a' = COMPLETED.
Proof.
  intros Hq Hpend Ht1 Hp1 He1 Ht2 Hp2 He2 Hlate. cbv zeta.
  change [App.Process; App.Settle 0 (Normal r1); App.Process;
          App.Settle 2 (Normal r2); App.Settle 0 late]
    with ([App.Process; App.Settle 0 (Normal r1)]
            ++ [App.Process; App.Settle 2 (Normal r2)] ++ [App.Settle 0 late]).
  change [App.Process; App.Settle 0 (Normal r1); App.Process;
          App.Settle 2 (Normal r2)]
    with ([App.Process; App.Settle 0 (Normal r1)]
            ++ [App.Process; App.Settle 2 (Normal r2)]).
  rewrite !run_app.
  assert (H1 : App.run [App.Process; App.Settle 0 (Normal r1)] a
               = App.run [App.Process; App.Settle (length (pending a)) (Normal r1)] a)
    by (rewrite Hpend; reflexivity).
  rewrite H1, (process_settle a (Normal r1) Hq).
  rewrite (resume_explained r1 fields1 e1 _ Ht1 Hp1 He1).
  set (a1 := send _ _).
  assert (Hq1 : query a1 <> "") by exact Hq.
  assert (Hpend1 : pending a1
                   = [generateDiagram_call (default JUndefined (fields1 !! "imagePrompt"));
                      generateSpeech_call (JString (string_slice e1 0 800))]).
  { subst a1. cbn [pending send set_pending setAppState setContent console_error
                   setError]. rewrite Hpend. reflexivity. }
  assert (H2 : App.run [App.Process; App.Settle 2 (Normal r2)] a1
               = App.run [App.Process; App.Settle (length (pending a1)) (Normal r2)] a1)
    by (rewrite Hpend1; reflexivity).
  rewrite H2, (process_settle a1 (Normal r2) Hq1).
  rewrite (resume_explained r2 fields2 e2 _ Ht2 Hp2 He2).
  cbn [pending send set_pending setAppState setContent console_error setError].
  rewrite Hpend1. split; [reflexivity|].
  cbn [App.run foldl App.step pending send set_pending setAppState setContent
       console_error setError app lookup list_lookup].
  rewrite Hpend1. cbn [app lookup list_lookup generateDiagram_call].
  rewrite diagram_settled_value, Hlate. split; reflexivity.
Qed.

Lemma earlier_image_attaches_to_later_answer_witness :
  let a' := App.run [App.Process; App.Settle 0 (Normal scenario_response);
                     App.Process; App.Settle 2 (Normal scenario_response);
                     App.Settle 0 (inline_reply "iVBORw0KGgo=")] asked in
  pending (App.run [App.Process; App.Settle 0 (Normal scenario_response); App.Process;
                    App.Settle 2 (Normal scenario_response)] asked) !! 0%nat
  = Some (generateDiagram_call (default JUndefined (scenario_fields !! "imagePrompt")))
  /\ content a'
     = Some {| text := JString "# MoE";
               spatialDescription :=
                 default JUndefined (scenario_fields !! "spatialDescription");
               imageUrl := Some ("data:image/png;base64," +:+ "iVBORw0KGgo=");
               audioUrl := None |}
  /\ appState a' = COMPLETED.
Proof.
  apply (earlier_image_attaches_to_later_answer asked scenario_response
           scenario_response scenario_fields scenario_fields "# MoE" "# MoE"
           "iVBORw0KGgo=" (inline_reply "iVBORw0KGgo="));
    [discriminate | reflexivity ..].
Defined.

End PipelineMore.

(** * Properties of the voice input *)

Module RecordingFacts.
Import GeminiService App Recording PipelineFacts.

(** ** The media type of the recorder *)

Lemma first_supported_spec (f : string -> bool) (candidates : list string) :
  Forall (fun t => t <> "") candidates ->
  (first_supported f candidates = "" /\ Forall (fun t => f t = false) candidates)
  \/ (first_supported f candidates <> ""
      /\ f (first_supported f candidates) = true
      /\ exists before after,
           candidates = before ++ first_supported f candidates :: after
           /\ Forall (fun t => f t = false) before).
Proof.
  induction 1 as [|t rest Ht _ IH]; cbn [first_supported].
  - left. split; [reflexivity|constructor].
  - destruct (f t) eqn:Hf.
    + right. split; [exact Ht|]. split; [exact Hf|].
      exists [], rest. split; [reflexivity|constructor].
    + destruct IH as [[Hm Hall]|(Hm & Hfm & before & after & Heq & Hall)].
      * left. split; [exact Hm|]. constructor; assumption.
      * right. split; [exact Hm|]. split; [exact Hfm|].
        exists (t :: before), after. split; [cbn; f_equal; exact Heq|].
        constructor; assumption.
Qed.

(** X16: [getSupportedMimeType] answers the empty string exactly when the
    browser supports none of the five candidates; otherwise it answers a
    supported candidate, and every candidate listed before it is
    unsupported (webm, mp4, ogg, wav, webm with opus, in this order). *)
Theorem getSupportedMimeType_first (isTypeSupported : string -> bool) :
  let m := getSupportedMimeType isTypeSupported in
  (m = "" /\ Forall (fun t => isTypeSupported t = false) types)
  \/ (m <> "" /\ isTypeSupported m = true
      /\ exists before after,
           types = before ++ m :: after
           /\ Forall (fun t => isTypeSupported t = false) before).
Proof.
  apply first_supported_spec. unfold types. repeat constructor; discriminate.
Qed.

(** ** The payload of a data URL *)

Lemma split_none (sep : ascii) (s : string) :
  ~ In sep (list_ascii_of_string s) -> split sep s = [s].
Proof.
  induction s as [|c s IH]; intros Hno; cbn -[Ascii.eqb]; [reflexivity|].
  destruct (Ascii.eqb_spec c sep) as [->|Hne]; [destruct Hno; left; reflexivity|].
  rewrite IH; [reflexivity|]. intros Hin. apply Hno. right. exact Hin.
Qed.

Lemma append_cons (c : ascii) (s t : string) : String c s +:+ t = String c (s +:+ t).
Proof. reflexivity. Qed.

Lemma split_first (sep : ascii) (prefix rest : string) :
  ~ In sep (list_ascii_of_string prefix) ->
  split sep (prefix +:+ String sep rest) = prefix :: split sep rest.
Proof.
  induction prefix as [|c prefix IH]; intros Hno.
  - change ("" +:+ String sep rest) with (String sep rest).
    cbn -[Ascii.eqb]. rewrite Ascii.eqb_refl. reflexivity.
  - rewrite append_cons. cbn -[Ascii.eqb String.append].
    destruct (Ascii.eqb_spec c sep) as [->|Hne]; [destruct Hno; left; reflexivity|].
    rewrite IH; [reflexivity|]. intros Hin. apply Hno. right. exact Hin.
Qed.

(** X17: for a reader result made of a header without comma, a comma and a
    payload without comma (every data URL of a base64 body whose media type
    has no comma), [blobToBase64] gives back exactly the payload; for a
    result without any comma it gives [undefined]. *)
Theorem blobToBase64_payload (header payload : string) :
  ~ In ","%char (list_ascii_of_string header) ->
  ~ In ","%char (list_ascii_of_string payload) ->
  blobToBase64 (header +:+ String "," payload) = Some payload
  /\ blobToBase64 header = None.
Proof.
  intros Hh Hp. unfold blobToBase64. split.
  - rewrite split_first by exact Hh. rewrite split_none by exact Hp. reflexivity.
  - rewrite split_none by exact Hh. reflexivity.
Qed.

Lemma blobToBase64_payload_witness :
  blobToBase64 ("data:audio/webm;codecs=opus;base64" +:+ String "," "GkXfo59ChoEB")
  = Some "GkXfo59ChoEB"
  /\ blobToBase64 "data:audio/webm;codecs=opus;base64" = None.
Proof.
  apply (blobToBase64_payload "data:audio/webm;codecs=opus;base64" "GkXfo59ChoEB").
  - vm_compute. intuition discriminate.
  - vm_compute. intuition discriminate.
Defined.

(** ** The simulated voice input *)

Lemma first_chars_all (s : string) : first_chars (String.length s) s = s.
Proof.
  unfold first_chars. induction s as [|c s IH]; cbn; [reflexivity|].
  f_equal. exact IH.
Qed.

Lemma insert_last {A} (l : list A) (x y : A) : <[length l := y]> (l ++ [x]) = l ++ [y].
Proof. induction l as [|z l IH]; cbn; [reflexivity|]. f_equal. exact IH. Qed.

Lemma run_snoc (es : list Event) (e : Event) (s : Studio) :
  run (es ++ [e]) s = step (run es s) e.
Proof. unfold run. rewrite foldl_app. reflexivity. Qed.

Lemma tick_types (sn : Studio) (base : list nat) (i : nat) :
  timers sn = base ++ [i] ->
  (i < String.length SIMULATION_QUERY)%nat ->
  timers (simulation_tick (length base) sn) = base ++ [S i]
  /\ appState (app (simulation_tick (length base) sn)) = appState (app sn)
  /\ query (app (simulation_tick (length base) sn)) = first_chars i SIMULATION_QUERY.
Proof.
  intros Ht Hi. unfold simulation_tick. rewrite Ht, lookup_last.
  destruct (Nat.ltb_spec (String.length SIMULATION_QUERY) (S i)) as [?|_]; [lia|].
  rewrite string_slice_prefix.
  generalize (first_chars i SIMULATION_QUERY). intros typed.
  cbn. rewrite Ht, insert_last. repeat split.
Qed.

Lemma tick_finishes (sn : Studio) (base : list nat) :
  timers sn = base ++ [String.length SIMULATION_QUERY] ->
  timers (simulation_tick (length base) sn) = base
  /\ appState (app (simulation_tick (length base) sn)) = IDLE
  /\ query (app (simulation_tick (length base) sn)) = SIMULATION_QUERY.
Proof.
  intros Ht. unfold simulation_tick. rewrite Ht, lookup_last.
  destruct (Nat.ltb_spec (String.length SIMULATION_QUERY)
              (S (String.length SIMULATION_QUERY))) as [_|?]; [|lia].
  rewrite string_slice_prefix, first_chars_all.
  generalize SIMULATION_QUERY at 2 3. intros typed.
  cbn. rewrite Ht, delete_last. repeat split.
Qed.

Lemma simulation_progress (s : Studio) (n : nat) :
  (n <= String.length SIMULATION_QUERY)%nat ->
  let s' := run (replicate n (SimulationTick (length (timers s)))) (simulateVoiceInput s) in
  timers s' = timers s ++ [n]
  /\ appState (app s') = RECORDING
  /\ query (app s') = first_chars (n - 1) SIMULATION_QUERY.
Proof.
  cbv zeta. induction n as [|n IH]; intros Hn.
  - repeat split.
  - destruct IH as (Ht & Hst & Hq); [lia|].
    rewrite replicate_S_end, run_snoc. cbn [step].
    destruct (tick_types _ (timers s) n Ht ltac:(lia)) as (H1 & H2 & H3).
    replace (S n - 1)%nat with n by lia.
    split; [exact H1|]. split; [rewrite H2; exact Hst|exact H3].
Qed.

(** X18: the simulation types the whole demonstration query. After [n]
    firings of its timer, [n] at most the length of the query, the phase is
    RECORDING and the query field shows the first [n - 1] characters; the
    firing after that shows the whole query, returns the phase to IDLE and
    clears the timer. *)
Theorem simulation_types_query (s : Studio) (n : nat) :
  (n <= String.length SIMULATION_QUERY)%nat ->
  let k := length (timers s) in
  let during := run (replicate n (SimulationTick k)) (simulateVoiceInput s) in
  let after := run (replicate (S (String.length SIMULATION_QUERY)) (SimulationTick k))
                   (simulateVoiceInput s) in
  (appState (app during) = RECORDING
   /\ query (app during) = first_chars (n - 1) SIMULATION_QUERY
   /\ timers during = timers s ++ [n])
  /\ (appState (app after) = IDLE
      /\ query (app after) = SIMULATION_QUERY
      /\ timers after = timers s).
Proof.
  intros Hn k during after. subst k during after.
  destruct (simulation_progress s n Hn) as (Ht & Hst & Hq).
  split; [repeat split; assumption|].
  destruct (simulation_progress s (String.length SIMULATION_QUERY) (Nat.le_refl _))
    as (Ht' & _ & _).
  rewrite replicate_S_end, run_snoc. cbn [step].
  destruct (tick_finishes _ (timers s) Ht') as (H1 & H2 & H3).
  split; [exact H2|]. split; [exact H3|exact H1].
Qed.

Lemma simulation_types_query_witness :
  let k := length (timers opened) in
  let during := run (replicate 8 (SimulationTick k)) (simulateVoiceInput opened) in
  let after := run (replicate (S (String.length SIMULATION_QUERY)) (SimulationTick k))
                   (simulateVoiceInput opened) in
  (appState (app during) = RECORDING
   /\ query (app during) = first_chars (8 - 1) SIMULATION_QUERY
   /\ timers during = timers opened ++ [8%nat])
  /\ (appState (app after) = IDLE
      /\ query (app after) = SIMULATION_QUERY
      /\ timers after = timers opened).
Proof.
  apply (simulation_types_query opened 8). vm_compute. lia.
Defined.

(** ** What every run of the component preserves *)

Lemma run_studio_invariant (Inv : Studio -> Prop) :
  (forall s e, Inv s -> Inv (step s e)) ->
  forall es s, Inv s -> Inv (run es s).
Proof.
  intros Hstep es. induction es as [|e es IH]; intros s Hs; [exact Hs|].
  cbn [run foldl]. apply IH, Hstep, Hs.
Qed.

Lemma resume_phase (settled : Settled JSValue) (a : App) :
  appState (handleProcess_resume settled a) = COMPLETED
  \/ appState (handleProcess_resume settled a) = ERROR.
Proof.
  destruct settled as [log [v|e]];
    unfold handleProcess_resume, try_catch, await, mbind, Proc_bind, eval, modify;
    cbn [fst snd]; [|right; reflexivity].
  destruct (get_property v "explanation") as [x|e1]; [|right; reflexivity].
  destruct (get_property v "spatialDescription") as [sd|e2]; [|right; reflexivity].
  destruct (get_property v "imagePrompt") as [ip|e3]; [|right; reflexivity].
  destruct (call_slice x 0 800) as [sliced|e4]; [left|right]; reflexivity.
Qed.

Lemma settle_phase (a : App) (i : nat) (reply : Reply) :
  phase_used (appState a) -> phase_used (appState (App.step a (App.Settle i reply))).
Proof.
  intros Ha. cbn [App.step].
  destruct (pending a !! i) as [request|]; [|exact Ha].
  destruct request.
  - destruct (resume_phase (generateExplanation reply)
                (set_pending (delete i (pending a)) a)) as [-> | ->]; exact I.
  - destruct (diagram_settled_frame reply (set_pending (delete i (pending a)) a))
      as (-> & _). exact Ha.
  - destruct (speech_settled_frame reply (set_pending (delete i (pending a)) a))
      as (-> & _). exact Ha.
Qed.

Lemma transcription_outcome (reply : Reply) (a : App) :
  try_catch
    (text ← await (transcribeAudio reply);
     modify (setQuery text);; modify (setAppState IDLE))
    transcription_failed a
  = match reply with
    | Normal r => setAppState IDLE (setQuery (transcript r) (console_error [] a))
    | Throw e =>
        transcription_failed (Error "Failed to transcribe audio.")
          (console_error [ConsoleError "Transcription failed" e] a)
    end.
Proof.
  unfold try_catch, await, transcribeAudio, GeminiService.try_catch, mbind,
    Proc_bind, modify, transcript.
  destruct reply as [r|e]; reflexivity.
Qed.

Lemma step_phase (s : Studio) (e : Event) :
  phase_used (appState (app s)) -> phase_used (appState (app (step s e))).
Proof.
  intros Hs. destruct e as [value| |k| |media isTypeSupported|blob| |read|reply| | |i reply]; cbn [step].
  - unfold handleTextChange. cbn. destruct (truthy (error (app s))); exact Hs.
  - exact I.
  - unfold simulation_tick. destruct (timers s !! k) as [i|]; [|exact Hs].
    destruct (String.length SIMULATION_QUERY <? S i)%nat; [exact I|exact Hs].
  - unfold toggleRecording, stopRecording, startRecording.
    destruct (appState (app s)) eqn:Hst;
      try destruct (mediaRecorderRef s) as [[[] m]|];
      cbn; rewrite ?Hst; first [exact I | exact Hs].
  - unfold startRecording_resume. destruct media as [|name].
    + destruct (String.eqb (getSupportedMimeType isTypeSupported) ""); exact I.
    + exact I.
  - unfold ondataavailable. destruct (0 <? size blob)%nat; exact Hs.
  - unfold onstop. destruct (mediaRecorderRef s); [exact I|exact Hs].
  - unfold reader_settled. destruct (reading s); [exact Hs|].
    destruct read; [exact Hs|exact I].
  - unfold transcription_settled. destruct (transcriptions s); [exact Hs|].
    cbn [app on_app set_transcriptions]. rewrite transcription_outcome.
    destruct reply; exact I.
  - unfold stopRecording.
    destruct (mediaRecorderRef s) as [[[] m]|]; cbn; try exact Hs; exact I.
  - cbn. unfold handleProcess. destruct (String.eqb (query (app s)) ""); [exact Hs|exact I].
  - cbn [app on_app]. apply settle_phase, Hs.
Qed.

Lemma step_chunks (s : Studio) (e : Event) :
  Forall (fun chunk => (0 < size chunk)%nat) (audioChunksRef s) ->
  Forall (fun chunk => (0 < size chunk)%nat) (audioChunksRef (step s e)).
Proof.
  intros Hs. destruct e as [value| |k| |media isTypeSupported|blob| |read|reply| | |i reply]; cbn [step]; try exact Hs.
  - unfold simulation_tick. destruct (timers s !! k) as [i|]; [|exact Hs].
    destruct (String.length SIMULATION_QUERY <? S i)%nat; exact Hs.
  - unfold toggleRecording, stopRecording, startRecording.
    destruct (appState (app s)); try exact Hs.
    destruct (mediaRecorderRef s) as [[[] m]|]; exact Hs.
  - unfold startRecording_resume. destruct media as [|name]; [|exact Hs].
    destruct (String.eqb (getSupportedMimeType isTypeSupported) "");
      [exact Hs|constructor].
  - unfold ondataavailable.
    destruct (Nat.ltb_spec 0 (size blob)) as [Hpos|_]; [|exact Hs].
    cbn. apply Forall_app. split; [exact Hs|]. constructor; [exact Hpos|constructor].
  - unfold onstop. destruct (mediaRecorderRef s); exact Hs.
  - unfold reader_settled. destruct (reading s); [exact Hs|].
    destruct read; exact Hs.
  - unfold transcription_settled. destruct (transcriptions s); exact Hs.
  - unfold stopRecording. destruct (mediaRecorderRef s) as [[[] m]|]; exact Hs.
Qed.

(** X19: in every run of the component from its opening state (typing, the
    simulation, recording, transcription and the request pipeline, in any
    order and with any answers of the environment) the phase is never
    GENERATING_IMAGE nor GENERATING_AUDIO, and the chunk list holds no empty
    blob. *)
Theorem phases_and_chunks (es : list Event) :
  phase_used (appState (app (run es opened)))
  /\ Forall (fun chunk => (0 < size chunk)%nat) (audioChunksRef (run es opened)).
Proof.
  split.
  - apply (run_studio_invariant (fun s => phase_used (appState (app s)))).
    + intros s e. apply step_phase.
    + exact I.
  - apply (run_studio_invariant
             (fun s => Forall (fun chunk => (0 < size chunk)%nat) (audioChunksRef s))).
    + intros s e. apply step_chunks.
    + constructor.
Qed.

Lemma step_frame (s : Studio) (e : Event) :
  voice_or_typing e ->
  content (app (step s e)) = content (app s)
  /\ pending (app (step s e)) = pending (app s).
Proof.
  intros He. destruct e as [value| |k| |media isTypeSupported|blob| |read|reply| | |i reply]; try destruct He; cbn [step].
  - unfold handleTextChange. cbn. destruct (truthy (error (app s))); split; reflexivity.
  - split; reflexivity.
  - unfold simulation_tick. destruct (timers s !! k) as [i|]; [|split; reflexivity].
    destruct (String.length SIMULATION_QUERY <? S i)%nat; split; reflexivity.
  - unfold toggleRecording, stopRecording, startRecording.
    destruct (appState (app s)); try (split; reflexivity).
    destruct (mediaRecorderRef s) as [[[] m]|]; split; reflexivity.
  - unfold startRecording_resume, microphone_failed. destruct media as [|name].
    + destruct (String.eqb (getSupportedMimeType isTypeSupported) ""); split; reflexivity.
    + cbn. destruct (String.eqb name "NotAllowedError"); split; reflexivity.
  - unfold ondataavailable. destruct (0 <? size blob)%nat; split; reflexivity.
  - unfold onstop. destruct (mediaRecorderRef s); split; reflexivity.
  - unfold reader_settled. destruct (reading s); [split; reflexivity|].
    destruct read; split; reflexivity.
  - unfold transcription_settled. destruct (transcriptions s); [split; reflexivity|].
    cbn [app on_app set_transcriptions]. rewrite transcription_outcome.
    destruct reply; split; reflexivity.
  - unfold stopRecording. destruct (mediaRecorderRef s) as [[[] m]|]; split; reflexivity.
Qed.

(** X20: typing, the simulation, recording and transcription never touch the
    result aggregate nor the calls in flight: whatever the user does with the
    voice input, the displayed answer stays and late results still find it. *)
Theorem voice_input_keeps_results (es : list Event) (s : Studio) :
  Forall voice_or_typing es ->
  content (app (run es s)) = content (app s)
  /\ pending (app (run es s)) = pending (app s).
Proof.
  revert s. induction es as [|e es IH]; intros s Hes; [split; reflexivity|].
  inversion Hes as [|? ? He Hes']; subst. cbn [run foldl].
  destruct (IH (step s e) Hes') as [Hc Hp].
  destruct (step_frame s e He) as [Hc' Hp'].
  unfold run in Hc, Hp. rewrite Hc, Hp. split; assumption.
Qed.

Lemma voice_input_keeps_results_witness :
  let s := on_app (fun _ => answered) opened in
  let es := [Simulate; SimulationTick 0; ToggleRecording; ToggleRecording;
             MicrophoneSettled (Refused "NotAllowedError") webm_only;
             TextChange "What is a router?"] in
  content (app (run es s)) = content (app s)
  /\ pending (app (run es s)) = pending (app s).
Proof.
  apply (voice_input_keeps_results
           [Simulate; SimulationTick 0; ToggleRecording; ToggleRecording;
            MicrophoneSettled (Refused "NotAllowedError") webm_only;
            TextChange "What is a router?"]
           (on_app (fun _ => answered) opened)).
  repeat constructor.
Defined.

(** ** A recording, start to end *)

Lemma toggle_starts (s : Studio) :
  appState (app s) <> RECORDING -> toggleRecording s = startRecording s.
Proof.
  intros Hst. unfold toggleRecording.
  destruct (appState (app s)); try reflexivity. contradiction.
Qed.

Lemma new_Blob_app (chunks more : list Blob) (t : string) :
  size (new_Blob (chunks ++ more) t)
  = (size (new_Blob chunks t) + size (new_Blob more t))%nat.
Proof.
  cbn. induction chunks as [|c chunks IH]; cbn; [reflexivity|].
  rewrite IH. lia.
Qed.

Lemma run_chunks (t m : string) (sizes : list nat) (s : Studio) :
  let s' := run (chunks_of t sizes) s in
  app s' = app s /\ mediaRecorderRef s' = mediaRecorderRef s
  /\ liveStreams s' = liveStreams s /\ reading s' = reading s
  /\ size (new_Blob (audioChunksRef s') m)
     = (size (new_Blob (audioChunksRef s) m) + sum_list sizes)%nat.
Proof.
  cbv zeta. revert s. induction sizes as [|n sizes IH]; intros s.
  - cbn. repeat split. lia.
  - cbn [chunks_of map run foldl step].
    destruct (IH (ondataavailable {| size := n; type := t |} s))
      as (H1 & H2 & H3 & H4 & H5).
    unfold chunks_of, run in *. rewrite H1, H2, H3, H4, H5.
    unfold ondataavailable. cbn [size].
    destruct (Nat.ltb_spec 0 n) as [Hpos|Hz].
    + cbn [app mediaRecorderRef liveStreams reading audioChunksRef set_audioChunksRef].
      rewrite new_Blob_app. cbn. repeat split. lia.
    + repeat split. cbn. lia.
Qed.

(** X21: a recording from a click on the microphone to the recorder's stop
    event. With the microphone granted and a supported media type [m], after
    chunks of any sizes and a second click, the stop handler releases the
    captured stream, and hands the reader one blob of type [m] whose size is
    the sum of the chunk sizes; the phase is then TRANSCRIBING and no error is
    shown. *)
Theorem recording_round_trip
    (s : Studio) (isTypeSupported : string -> bool) (sizes : list nat) :
  appState (app s) <> RECORDING ->
  getSupportedMimeType isTypeSupported <> "" ->
  let m := getSupportedMimeType isTypeSupported in
  let s' := run ([ToggleRecording; MicrophoneSettled Granted isTypeSupported]
                   ++ chunks_of m sizes ++ [ToggleRecording; RecorderStopped]) s in
  appState (app s') = TRANSCRIBING
  /\ error (app s') = None
  /\ liveStreams s' = liveStreams s
  /\ mediaRecorderRef s' = Some {| state := inactive; mimeType := m |}
  /\ exists blob, reading s' = reading s ++ [blob]
                  /\ size blob = sum_list sizes /\ type blob = m.
Proof.
  intros Hst Hm m s'. subst s'. unfold run. rewrite !foldl_app.
  fold (run (chunks_of m sizes)). cbn [foldl step].
  rewrite (toggle_starts s Hst).
  set (s1 := startRecording_resume Granted isTypeSupported (startRecording s)).
  assert (Hs1 : app s1 = setAppState RECORDING (setError None (app s))
                /\ mediaRecorderRef s1 = Some {| state := recording; mimeType := m |}
                /\ audioChunksRef s1 = [] /\ liveStreams s1 = S (liveStreams s)
                /\ reading s1 = reading s).
  { subst s1. unfold startRecording_resume. fold m.
    destruct (String.eqb_spec m ""); [contradiction|]. repeat split. }
  destruct Hs1 as (Ha1 & Hr1 & Hc1 & Hl1 & Hd1).
  destruct (run_chunks m m sizes s1) as (Ha2 & Hr2 & Hl2 & Hd2 & Hsz).
  change (foldl step s1 (chunks_of m sizes)) with (run (chunks_of m sizes) s1).
  set (s2 := run (chunks_of m sizes) s1) in *. clearbody s2 s1.
  rewrite Hc1 in Hsz. cbn in Hsz.
  assert (Htog : toggleRecording s2
                 = set_mediaRecorderRef (Some {| state := inactive; mimeType := m |}) s2).
  { unfold toggleRecording, stopRecording. rewrite Ha2, Ha1, Hr2, Hr1. reflexivity. }
  rewrite Htog. unfold onstop, handleTranscription.
  cbn [mediaRecorderRef set_mediaRecorderRef app on_app set_liveStreams set_reading
       liveStreams reading audioChunksRef mimeType appState error setAppState].
  rewrite Ha2, Ha1, Hl2, Hl1, Hd2, Hd1. cbn [pred error setAppState setError].
  repeat split.
  eexists. split; [reflexivity|]. split; [exact Hsz|reflexivity].
Qed.

Lemma recording_round_trip_witness :
  let m := getSupportedMimeType webm_only in
  let s' := run ([ToggleRecording; MicrophoneSettled Granted webm_only]
                   ++ chunks_of m [120; 0; 64]%nat
                   ++ [ToggleRecording; RecorderStopped]) opened in
  appState (app s') = TRANSCRIBING
  /\ error (app s') = None
  /\ liveStreams s' = liveStreams opened
  /\ mediaRecorderRef s' = Some {| state := inactive; mimeType := m |}
  /\ exists blob, reading s' = reading opened ++ [blob]
                  /\ size blob = sum_list [120; 0; 64]%nat /\ type blob = m.
Proof.
  apply (recording_round_trip opened webm_only [120; 0; 64]%nat); discriminate.
Defined.

(** X22: what a transcription leaves, for the one blob being read. If the
    reader fails no call is made; otherwise the call carries
    [blobToBase64] of the reader's result and the blob's type. In every case
    the phase returns to IDLE. A transcript (possibly empty) replaces the
    query and leaves the error as it was; a failure leaves the query as it
    was and shows the transcription error, the rejected call being logged by
    the service and by the handler. *)
Theorem transcription_outcomes
    (s : Studio) (blob : Blob) (read : completion string) (reply : Reply) :
  reading s = [blob] ->
  transcriptions s = [] ->
  let sent := run [ReaderSettled read] s in
  let done := run [ReaderSettled read; TranscriptionSettled reply] s in
  appState (app done) = IDLE
  /\ match read with
     | Throw e =>
         transcriptions sent = []
         /\ query (app done) = query (app s)
         /\ error (app done)
            = Some "Failed to transcribe audio. Please check your network."
     | Normal result =>
         transcriptions sent
         = [transcribeAudio_call (blobToBase64 result) (type blob)]
         /\ match reply with
            | Normal r =>
                query (app done) = transcript r
                /\ error (app done) = error (app s)
                /\ console (app done) = console (app s)
            | Throw e =>
                query (app done) = query (app s)
                /\ error (app done)
                   = Some "Failed to transcribe audio. Please check your network."
                /\ console (app done)
                   = console (app s)
                     ++ [ConsoleError "Transcription failed" e;
                         ConsoleErrorObject (Error "Failed to transcribe audio.")]
            end
     end.
Proof.
  intros Hr Ht. cbv zeta. cbn [run foldl step]. unfold reader_settled.
  rewrite Hr. destruct read as [result|e].
  - unfold transcription_settled.
    cbn [transcriptions set_transcriptions set_reading]. rewrite Ht.
    cbn [app on_app set_transcriptions set_reading List.app]. rewrite transcription_outcome.
    destruct reply as [r|e]; cbn.
    + rewrite app_nil_r. repeat split.
    + rewrite <- app_assoc. repeat split.
  - unfold transcription_settled.
    cbn [transcriptions set_transcriptions set_reading on_app]. rewrite Ht.
    repeat split.
Qed.

Lemma transcription_outcomes_witness :
  let s := handleTranscription {| size := 184; type := "audio/webm" |} opened in
  let read : completion string :=
    Normal ("data:audio/webm;base64" +:+ String "," "GkXfo59ChoEB") in
  let reply : Reply :=
    Normal {| GeminiService.text := Some "Explain MoE routing";
              JSON_parse_text := Throw SyntaxError; candidates := None |} in
  let sent := run [ReaderSettled read] s in
  let done := run [ReaderSettled read; TranscriptionSettled reply] s in
  appState (app done) = IDLE
  /\ (transcriptions sent
      = [transcribeAudio_call
           (blobToBase64 ("data:audio/webm;base64" +:+ String "," "GkXfo59ChoEB"))
           "audio/webm"]
      /\ query (app done) = "Explain MoE routing"
      /\ error (app done) = error (app s)
      /\ console (app done) = console (app s)).
Proof.
  apply (transcription_outcomes
           (handleTranscription {| size := 184; type := "audio/webm" |} opened)
           {| size := 184; type := "audio/webm" |}
           (Normal ("data:audio/webm;base64" +:+ String "," "GkXfo59ChoEB"))
           (Normal {| GeminiService.text := Some "Explain MoE routing";
                      JSON_parse_text := Throw SyntaxError; candidates := None |}));
    reflexivity.
Defined.

(** X23: a recording that cannot start. When the microphone is refused, or
    granted while the browser supports none of the candidate media types, a
    click on the microphone ends in IDLE with no recorder created and the
    chunks untouched; the message is the blocked-permission one only for a
    refusal named NotAllowedError. In the unsupported case the stream that
    was granted stays captured. *)
Theorem recording_cannot_start
    (s : Studio) (media : MediaAccess) (isTypeSupported : string -> bool) :
  appState (app s) <> RECORDING ->
  match media with
  | Granted => getSupportedMimeType isTypeSupported = ""
  | Refused _ => True
  end ->
  let s' := run [ToggleRecording; MicrophoneSettled media isTypeSupported] s in
  appState (app s') = IDLE
  /\ error (app s')
     = Some (match media with
             | Refused name =>
                 if String.eqb name "NotAllowedError"
                 then "Microphone access blocked. Please allow permissions."
                 else "Could not access microphone."
             | Granted => "Could not access microphone."
             end)
  /\ mediaRecorderRef s' = mediaRecorderRef s
  /\ audioChunksRef s' = audioChunksRef s
  /\ liveStreams s' = match media with
                      | Granted => S (liveStreams s)
                      | Refused _ => liveStreams s
                      end.
Proof.
  intros Hst Hmedia. cbv zeta. cbn [run foldl step].
  rewrite (toggle_starts s Hst). unfold startRecording_resume, microphone_failed.
  destruct media as [|name].
  - rewrite Hmedia. cbn. repeat split.
  - cbn. destruct (String.eqb name "NotAllowedError"); repeat split.
Qed.

Lemma recording_cannot_start_witness :
  let s' := run [ToggleRecording; MicrophoneSettled Granted (fun _ => false)] opened in
  appState (app s') = IDLE
  /\ error (app s') = Some "Could not access microphone."
  /\ mediaRecorderRef s' = mediaRecorderRef opened
  /\ audioChunksRef s' = audioChunksRef opened
  /\ liveStreams s' = S (liveStreams opened).
Proof.
  apply (recording_cannot_start opened Granted (fun _ => false));
    [discriminate | reflexivity].
Defined.

End RecordingFacts.
